(** * EMA crossover backtester: the pandas pipeline of [app.py] and [main.py]

    The two scripts share one column-by-column pipeline over a price table
    (EMAs, signal, lagged position, returns, cumulative portfolio value);
    [main.py] adds the trade table and the grid search [optimize_ema].

    Numbers.  Prices and every quantity derived from them are modelled with
    exact rational arithmetic ([Qc], canonical rationals, so that equality
    is Leibniz equality): rounding, overflow and the sign of zero are not
    modelled.  The special values the pipeline does produce and branch on
    are modelled: [NaN] (what [shift], [pct_change] and [diff] put in the
    first row, and what pandas reductions skip) and the two infinities
    (what a division by a zero price produces).

    Library calls ([ewm], [shift], [pct_change], [cumprod], [diff], [mean],
    [std], [prod], [loc]) are modelled from their documented behaviour; the
    square root of numpy is a parameter of the metrics. *)

From Stdlib Require Import List ZArith QArith Qcanon Lia Lqa Bool Sorted.
Import ListNotations.

Open Scope Qc_scope.

(** ** float64 values under exact arithmetic *)

Inductive float64 : Type :=
| Fin (q : Qc)
| Inf (negative : bool)
| NaN.

Definition of_Z (z : Z) : Qc := Q2Qc (inject_Z z).

Definition is_negative (q : Qc) : bool :=
  match q ?= 0 with Lt => true | _ => false end.

Definition fneg (x : float64) : float64 :=
  match x with
  | Fin a => Fin (- a)
  | Inf s => Inf (negb s)
  | NaN => NaN
  end.

Definition fadd (x y : float64) : float64 :=
  match x, y with
  | NaN, _ | _, NaN => NaN
  | Fin a, Fin b => Fin (a + b)
  | Inf s, Fin _ | Fin _, Inf s => Inf s
  | Inf s, Inf t => if Bool.eqb s t then Inf s else NaN
  end.

Definition fsub (x y : float64) : float64 := fadd x (fneg y).

Definition fmul (x y : float64) : float64 :=
  match x, y with
  | NaN, _ | _, NaN => NaN
  | Fin a, Fin b => Fin (a * b)
  | Inf s, Inf t => Inf (xorb s t)
  | Inf s, Fin a | Fin a, Inf s =>
      match a ?= 0 with
      | Eq => NaN
      | Gt => Inf s
      | Lt => Inf (negb s)
      end
  end.

Definition fdiv (x y : float64) : float64 :=
  match x, y with
  | NaN, _ | _, NaN => NaN
  | Fin a, Fin b =>
      match b ?= 0 with
      | Eq => match a ?= 0 with
              | Eq => NaN
              | Gt => Inf false
              | Lt => Inf true
              end
      | _ => Fin (a / b)
      end
  | Fin _, Inf _ => Fin 0
  | Inf s, Fin b => Inf (xorb s (is_negative b))
  | Inf _, Inf _ => NaN
  end.

(** [x > y]; every comparison with [NaN] is false. *)
Definition fgt (x y : float64) : bool :=
  match x, y with
  | NaN, _ | _, NaN => false
  | Fin a, Fin b => match a ?= b with Gt => true | _ => false end
  | Inf s, Inf t => negb s && t
  | Inf s, Fin _ => negb s
  | Fin _, Inf t => t
  end.

(** [x == y]; [NaN] is equal to nothing. *)
Definition feq (x y : float64) : bool :=
  match x, y with
  | Fin a, Fin b => match a ?= b with Eq => true | _ => false end
  | Inf s, Inf t => Bool.eqb s t
  | _, _ => false
  end.

Definition isna (x : float64) : bool :=
  match x with NaN => true | _ => false end.

Definition is_fin (x : float64) : bool :=
  match x with Fin _ => true | _ => false end.

(** ** Exceptions *)

Inductive error : Type := ValueError | IndexError | KeyError.

Inductive result (A : Type) : Type :=
| Ok (a : A)
| Err (e : error).

Arguments Ok {A} a.
Arguments Err {A} e.

Definition bind {A B} (m : result A) (k : A -> result B) : result B :=
  match m with
  | Ok a => k a
  | Err e => Err e
  end.

Notation "x <- m ;; k" := (bind m (fun x => k))
  (at level 61, m at next level, right associativity).

(** ** The price table

    One row per trading day, after [dropna]: the index label (the date, as a
    day number) and the closing price. *)

Record row : Type := { Date : Z; Close : Qc }.

Definition closes (data : list row) : list Qc := map Close data.
Definition index (data : list row) : list Z := map Date data.

(** ** pandas column operations *)

(** [ewm(span=...)]: the span is turned into a centre of mass; a span below
    1 is refused. *)
Definition get_center_of_mass (span : Z) : result Qc :=
  if (span <? 1)%Z then Err ValueError else Ok ((of_Z span - 1) / of_Z 2).

(** The running weighted average of [ewm(...).mean()] with [adjust=False]:
    each new observation gets weight [alpha], the average so far [1 - alpha]. *)
Fixpoint ewm_loop (alpha weighted : Qc) (vals : list Qc) : list Qc :=
  match vals with
  | [] => []
  | cur :: rest =>
      let weighted' := (1 - alpha) * weighted + alpha * cur in
      weighted' :: ewm_loop alpha weighted' rest
  end.

Definition ewm_run (alpha : Qc) (vals : list Qc) : list Qc :=
  match vals with
  | [] => []
  | x0 :: rest => x0 :: ewm_loop alpha x0 rest
  end.

Definition ewm_mean (span : Z) (vals : list Qc) : result (list Qc) :=
  com <- get_center_of_mass span ;;
  let alpha := 1 / (1 + com) in
  Ok (ewm_run alpha vals).

Definition Qcgtb (x y : Qc) : bool :=
  match x ?= y with Gt => true | _ => false end.

(** [np.where(a > b, 1, 0)] *)
Definition np_where_gt (a b : list Qc) : list Z :=
  map (fun p => if Qcgtb (fst p) (snd p) then 1%Z else 0%Z) (combine a b).

(** [Series.shift(1)] of an integer column: a float column, [NaN] first. *)
Definition shift1 (xs : list Z) : list float64 :=
  match xs with
  | [] => []
  | _ :: _ => NaN :: map (fun z => Fin (of_Z z)) (removelast xs)
  end.

(** [Series.pct_change()]: [x[i] / x[i-1] - 1], [NaN] first. *)
Definition pct_change (xs : list Qc) : list float64 :=
  match xs with
  | [] => []
  | _ :: rest =>
      NaN :: map (fun p => fsub (fdiv (Fin (snd p)) (Fin (fst p))) (Fin 1))
                 (combine xs rest)
  end.

(** [Series.diff()]: [x[i] - x[i-1]], [NaN] first. *)
Definition diff (xs : list float64) : list float64 :=
  match xs with
  | [] => []
  | _ :: rest => NaN :: map (fun p => fsub (snd p) (fst p)) (combine xs rest)
  end.

(** Element-wise product of two aligned columns. *)
Definition col_mul (xs ys : list float64) : list float64 :=
  map (fun p => fmul (fst p) (snd p)) (combine xs ys).

(** [1 + column] *)
Definition one_plus (xs : list float64) : list float64 := map (fadd (Fin 1)) xs.

(** [Series.cumprod()] (skipna): a missing entry stays missing and is left
    out of the running product. *)
Fixpoint cumprod_from (acc : float64) (xs : list float64) : list float64 :=
  match xs with
  | [] => []
  | x :: rest =>
      if isna x then NaN :: cumprod_from acc rest
      else let acc' := fmul acc x in acc' :: cumprod_from acc' rest
  end.

Definition cumprod (xs : list float64) : list float64 := cumprod_from (Fin 1) xs.

Definition dropna_values (xs : list float64) : list float64 :=
  filter (fun x => negb (isna x)) xs.

Definition fsum (xs : list float64) : float64 := fold_left fadd xs (Fin 0).

(** [Series.prod()] (skipna) *)
Definition nanprod (xs : list float64) : float64 :=
  fold_left fmul (dropna_values xs) (Fin 1).

Definition count (xs : list float64) : Z := Z.of_nat (length (dropna_values xs)).

(** [Series.mean()] (skipna): [NaN] when nothing is left. *)
Definition nanmean (xs : list float64) : float64 :=
  if (0 <? count xs)%Z
  then fdiv (fsum (dropna_values xs)) (Fin (of_Z (count xs)))
  else NaN.

(** [Series.var()] (skipna, [ddof=1]): [NaN] with fewer than two values. *)
Definition nanvar (xs : list float64) : float64 :=
  if (count xs <=? 1)%Z then NaN
  else
    let avg := fdiv (fsum (dropna_values xs)) (Fin (of_Z (count xs))) in
    let sqr := map (fun x => let d := fsub avg x in fmul d d) (dropna_values xs) in
    fdiv (fsum sqr) (Fin (of_Z (count xs - 1))).

(** [Series.iloc[-1]] *)
Definition iloc_last {A} (xs : list A) : result A :=
  match rev xs with
  | [] => Err IndexError
  | x :: _ => Ok x
  end.

(** [data.loc[labels, 'Close'].values]: for each label, in order, the close
    of every row carrying it; a label that is not in the index is an error. *)
Fixpoint loc_close (data : list row) (labels : list Z) : result (list Qc) :=
  match labels with
  | [] => Ok []
  | l :: rest =>
      match filter (fun r => (Date r =? l)%Z) data with
      | [] => Err KeyError
      | hits => tl <- loc_close data rest ;; Ok (map Close hits ++ tl)
      end
  end.

(** [data[data[col] == v].index] *)
Definition index_where (data : list row) (col : list float64) (v : float64)
  : list Z :=
  map (fun p => Date (fst p)) (filter (fun p => feq (snd p) v) (combine data col)).

(** ** Signals and returns ([app.py] and [main.py], lines 18-27; the same
    statements are repeated in [optimize_ema], lines 116-121) *)

Record signals : Type := {
  EMA_short : list Qc;
  EMA_long : list Qc;
  Signal : list Z;
  Position : list float64;
  Return : list float64;
  Strategy_Return : list float64
}.

Definition compute_signals (data : list row) (short_window long_window : Z)
  : result signals :=
  ema_short <- ewm_mean short_window (closes data) ;;
  ema_long <- ewm_mean long_window (closes data) ;;
  let signal := np_where_gt ema_short ema_long in
  let position := shift1 signal in
  let ret := pct_change (closes data) in
  Ok {| EMA_short := ema_short;
        EMA_long := ema_long;
        Signal := signal;
        Position := position;
        Return := ret;
        Strategy_Return := col_mul ret position |}.

(** ** Portfolio simulation (lines 30-31) *)

Definition Portfolio_Value (s : signals) (initial_cash : Qc) : list float64 :=
  map (fun v => fmul v (Fin initial_cash)) (cumprod (one_plus (Strategy_Return s))).

Definition Buy_Hold_Value (s : signals) (initial_cash : Qc) : list float64 :=
  map (fun v => fmul v (Fin initial_cash)) (cumprod (one_plus (Return s))).

(** [(last / initial_cash - 1) * 100] *)
Definition percent_gain (last : float64) (initial_cash : Qc) : float64 :=
  fmul (fsub (fdiv last (Fin initial_cash)) (Fin 1)) (Fin (of_Z 100)).

(** ** Trade analysis ([main.py], lines 34-48) *)

Record trade : Type := {
  Entry : Z;
  Exit : Z;
  Entry_Price : Qc;
  Exit_Price : Qc;
  Return_pct : float64
}.

Definition Trade (position : list float64) : list float64 := diff position.

Definition entries (data : list row) (position : list float64) : list Z :=
  index_where data (Trade position) (Fin 1).

Definition exits (data : list row) (position : list float64) : list Z :=
  index_where data (Trade position) (Fin (- (1))).

(** Lines 37-38: an open position at the end is closed on the last row. *)
Definition padded_exits (data : list row) (position : list float64)
  : result (list Z) :=
  if (length (exits data position) <? length (entries data position))%nat
  then last_label <- iloc_last (index data) ;;
       Ok (exits data position ++ [last_label])
  else Ok (exits data position).

Definition trade_return_pct (entry_price exit_price : Qc) : float64 :=
  fmul (fsub (fdiv (Fin exit_price) (Fin entry_price)) (Fin 1)) (Fin (of_Z 100)).

Fixpoint zip_trades (en ex : list Z) (enp exp : list Qc) : list trade :=
  match en, ex, enp, exp with
  | e :: en', x :: ex', p :: enp', q :: exp' =>
      {| Entry := e; Exit := x; Entry_Price := p; Exit_Price := q;
         Return_pct := trade_return_pct p q |}
        :: zip_trades en' ex' enp' exp'
  | _, _, _, _ => []
  end.

(** Lines 40-44: the [trades] table.  [pd.DataFrame] refuses columns of
    different lengths, and so does the assignment of a price column whose
    length is not the number of trades. *)
Definition extract_trades (data : list row) (position : list float64)
  : result (list trade) :=
  let en := entries data position in
  ex <- padded_exits data position ;;
  if negb (length en =? length ex)%nat then Err ValueError
  else
    match en with
    | [] => Ok []
    | _ :: _ =>
        enp <- loc_close data en ;;
        if negb (length enp =? length en)%nat then Err ValueError
        else
          exp <- loc_close data ex ;;
          if negb (length exp =? length en)%nat then Err ValueError
          else Ok (zip_trades en ex enp exp)
    end.

(** Lines 45-48 *)
Definition win_rate (trades : list trade) : float64 :=
  match trades with
  | [] => Fin 0
  | _ :: _ =>
      let wins := filter (fun t => fgt (Return_pct t) (Fin 0)) trades in
      fmul (Fin (of_Z (Z.of_nat (length wins)) / of_Z (Z.of_nat (length trades))))
           (Fin (of_Z 100))
  end.

Definition avg_trade (trades : list trade) : float64 :=
  match trades with
  | [] => Fin 0
  | _ :: _ => nanmean (map Return_pct trades)
  end.

(** ** Metrics and the two backtest functions *)

Section Metrics.

(** [np.sqrt] on non-negative rationals. *)
Variable sqrt : Qc -> Qc.

Definition np_sqrt (x : float64) : float64 :=
  match x with
  | Fin a => if is_negative a then NaN else Fin (sqrt a)
  | Inf false => Inf false
  | Inf true => NaN
  | NaN => NaN
  end.

(** [Series.std()] *)
Definition nanstd (xs : list float64) : float64 := np_sqrt (nanvar xs).

(** [(mean / std) * np.sqrt(252)] *)
Definition sharpe_ratio (strategy_return : list float64) : float64 :=
  fmul (fdiv (nanmean strategy_return) (nanstd strategy_return))
       (np_sqrt (Fin (of_Z 252))).

(** What [app.py]'s [ema_crossover_backtest] returns next to the table. *)
Record app_result : Type := {
  app_data : signals;
  app_portfolio_value : list float64;
  app_buy_hold_value : list float64;
  app_total_return : float64;
  app_buyhold_return : float64;
  app_sharpe_ratio : float64
}.

(** [app.py], lines 13-38 *)
Definition app_ema_crossover_backtest (data : list row)
    (short_window long_window : Z) (initial_cash : Qc) : result app_result :=
  s <- compute_signals data short_window long_window ;;
  let pv := Portfolio_Value s initial_cash in
  let bh := Buy_Hold_Value s initial_cash in
  pv_last <- iloc_last pv ;;
  bh_last <- iloc_last bh ;;
  Ok {| app_data := s;
        app_portfolio_value := pv;
        app_buy_hold_value := bh;
        app_total_return := percent_gain pv_last initial_cash;
        app_buyhold_return := percent_gain bh_last initial_cash;
        app_sharpe_ratio := sharpe_ratio (Strategy_Return s) |}.

(** What [main.py]'s [ema_crossover_backtest] computes: the table it
    returns and the figures it writes into the metrics box. *)
Record main_result : Type := {
  main_data : signals;
  main_portfolio_value : list float64;
  main_buy_hold_value : list float64;
  main_trades : list trade;
  main_win_rate : float64;
  main_avg_trade : float64;
  main_total_return : float64;
  main_buyhold_return : float64;
  main_sharpe_ratio : float64
}.

(** [main.py], lines 10-53 *)
Definition main_ema_crossover_backtest (data : list row)
    (short_window long_window : Z) (initial_cash : Qc) : result main_result :=
  s <- compute_signals data short_window long_window ;;
  let pv := Portfolio_Value s initial_cash in
  let bh := Buy_Hold_Value s initial_cash in
  trades <- extract_trades data (Position s) ;;
  pv_last <- iloc_last pv ;;
  bh_last <- iloc_last bh ;;
  Ok {| main_data := s;
        main_portfolio_value := pv;
        main_buy_hold_value := bh;
        main_trades := trades;
        main_win_rate := win_rate trades;
        main_avg_trade := avg_trade trades;
        main_total_return := percent_gain pv_last initial_cash;
        main_buyhold_return := percent_gain bh_last initial_cash;
        main_sharpe_ratio := sharpe_ratio (Strategy_Return s) |}.

End Metrics.

(** ** The grid search ([main.py], lines 104-132) *)

(** Python's [range(start, stop, step)] for a positive step. *)
Definition range (start stop step : Z) : list Z :=
  map (fun k => (start + step * Z.of_nat k)%Z)
      (seq 0 (Z.to_nat ((stop - start + step - 1) / step))).

(** Line 123 *)
Definition total_return (data : list row) (short long : Z) : result float64 :=
  s <- compute_signals data short long ;;
  Ok (fsub (nanprod (one_plus (Strategy_Return s))) (Fin 1)).

(** The loop state: [best_return] and [best_params]. *)
Definition best : Type := (float64 * (Z * Z))%type.

(** One pass through the inner loop body, lines 112-129. *)
Definition optimize_body (data : list row) (short long : Z) (b : best)
  : result best :=
  if (short >=? long)%Z then Ok b
  else
    tr <- total_return data short long ;;
    if fgt tr (fst b) then Ok (tr, (short, long)) else Ok b.

Fixpoint for_each {A S} (xs : list A) (body : A -> S -> result S) (s : S)
  : result S :=
  match xs with
  | [] => Ok s
  | x :: rest => s' <- body x s ;; for_each rest body s'
  end.

Definition optimize_ema (data : list row) : result (Z * Z) :=
  b <- for_each (range 5 21 5)
         (fun short => for_each (range 20 61 10) (optimize_body data short))
         (Inf true, (0%Z, 0%Z)) ;;
  Ok (snd b).

(** ** The script of [main.py] (lines 139-142)

    The optimizer's pair is handed to the backtest, with the default
    initial cash of 10000. *)
Definition main_script (sqrt : Qc -> Qc) (data : list row) : result main_result :=
  best_params <- optimize_ema data ;;
  main_ema_crossover_backtest sqrt data (fst best_params) (snd best_params)
                              (of_Z 10000).

(** ** The sidebar of [app.py] (lines 47-60)

    The values of the two sliders and of the number input, and the call
    made when "Run Backtest" is pressed. *)
Record sidebar : Type := {
  short_window : Z;
  long_window : Z;
  initial_cash : Z
}.

(** What the widgets allow: [slider(5, 50)], [slider(20, 200)] and
    [number_input(1000, 1000000)]. *)
Definition sidebar_in_range (sb : sidebar) : Prop :=
  (5 <= short_window sb <= 50)%Z /\
  (20 <= long_window sb <= 200)%Z /\
  (1000 <= initial_cash sb <= 1000000)%Z.

Definition run_backtest (sqrt : Qc -> Qc) (data : list row) (sb : sidebar)
  : result app_result :=
  app_ema_crossover_backtest sqrt data (short_window sb) (long_window sb)
                             (of_Z (initial_cash sb)).

(** ** Notions used in the statements *)

(** The smoothing factor [2 / (window + 1)]. *)
Definition alpha_of (window : Z) : Qc := of_Z 2 / (of_Z window + 1).

(** The columns of lines 18-27 for given smoothing factors. *)
Definition columns (data : list row) (short long : Z) : signals :=
  let ema_short := ewm_run (alpha_of short) (closes data) in
  let ema_long := ewm_run (alpha_of long) (closes data) in
  let signal := np_where_gt ema_short ema_long in
  {| EMA_short := ema_short;
     EMA_long := ema_long;
     Signal := signal;
     Position := shift1 signal;
     Return := pct_change (closes data);
     Strategy_Return := col_mul (pct_change (closes data)) (shift1 signal) |}.

(** [ema[0] = close[0]] and
    [ema[i] = alpha * close[i] + (1 - alpha) * ema[i-1]], index by index. *)
Definition ema_recurrence (window : Z) (close ema : list Qc) : Prop :=
  length ema = length close /\
  nth_error ema 0 = nth_error close 0 /\
  forall (i : nat) (c e : Qc),
    nth_error close (S i) = Some c ->
    nth_error ema i = Some e ->
    nth_error ema (S i)
    = Some (alpha_of window * c + (1 - alpha_of window) * e).

Definition Qc_min (a b : Qc) : Qc := if Qcgtb a b then b else a.

Definition Qc_max (a b : Qc) : Qc := if Qcgtb a b then a else b.

(** [min(close)] and [max(close)] of a non-empty column. *)
Definition col_min (xs : list Qc) : Qc :=
  match xs with
  | [] => 0
  | x :: rest => fold_left Qc_min rest x
  end.

Definition col_max (xs : list Qc) : Qc :=
  match xs with
  | [] => 0
  | x :: rest => fold_left Qc_max rest x
  end.

Definition between (lo hi x : Qc) : Prop := lo <= x /\ x <= hi.

(** [prod_from_1 r i] is the product of [1 + r[k]] for [k = 1 .. i],
    multiplied from left to right. *)
Definition prod_from_1 (r : list float64) (i : nat) : float64 :=
  fold_left fmul (one_plus (firstn i (skipn 1 r))) (Fin 1).

(** The close of the row labelled [d]. *)
Definition close_on (data : list row) (d : Z) : option Qc :=
  option_map Close (find (fun r => (Date r =? d)%Z) data).

(** A 0/1 signal value as it sits in the position column. *)
Definition of_bool (b : bool) : float64 := Fin (of_Z (Z.b2z b)).

(** The total return of line 123 for a pair of positive windows. *)
Definition total_return_of (data : list row) (p : Z * Z) : float64 :=
  fsub (nanprod (one_plus (Strategy_Return (columns data (fst p) (snd p))))) (Fin 1).

(** The pairs the two loops reach past the [continue] of line 113, in the
    order in which they reach them. *)
Definition candidates : list (Z * Z) :=
  filter (fun p => (fst p <? snd p)%Z)
         (list_prod (range 5 21 5) (range 20 61 10)).

(** Keeping the first strictly greatest value along a list of candidates:
    the update of lines 127-129. *)
Definition keep_greater {A : Type} (value : A -> float64)
    (b : float64 * A) (p : A) : float64 * A :=
  if fgt (value p) (fst b) then (value p, p) else b.

(** Comparison of columns by [==]. *)
Fixpoint feq_list (xs ys : list float64) : bool :=
  match xs, ys with
  | [], [] => true
  | x :: xs', y :: ys' => feq x y && feq_list xs' ys'
  | _, _ => false
  end.

(** ** Sample inputs *)

(** A rational square root for running the metrics: the root of
    [num * den * 10^12] rounded up, over [den * 10^6]. *)
Definition sqrt_up (x : Qc) : Qc :=
  Q2Qc (Z.sqrt_up (Qnum x * Zpos (Qden x) * 1000000000000)
          # (Qden x * 1000000)).

(** One bar per day, numbered from 0, with integer closes. *)
Definition daily_bars (prices : list Z) : list row :=
  map (fun p => {| Date := Z.of_nat (fst p); Close := of_Z (snd p) |})
      (combine (seq 0 (length prices)) prices).

Definition four_bars : list row := daily_bars [10; 11; 9; 12]%Z.

(** The ten closes of the worked scenario. *)
Definition ten_bars : list row :=
  daily_bars [10; 11; 9; 12; 15; 14; 16; 18; 17; 20]%Z.

Definition flat_bars : list row := daily_bars [10; 10; 10; 10]%Z.

Definition bars_from_zero : list row := daily_bars [0; 1; 2; 4]%Z.

Definition rising_bars : list row := daily_bars [10; 11; 12; 13; 14; 15]%Z.

(** * Properties *)

(** ** Arithmetic on [Qc] through [Q] *)

Lemma this_plus (x y : Qc) : (this (x + y) == this x + this y)%Q.
Proof. apply Qred_correct. Qed.

Lemma this_mult (x y : Qc) : (this (x * y) == this x * this y)%Q.
Proof. apply Qred_correct. Qed.

Lemma this_opp (x : Qc) : (this (- x) == - this x)%Q.
Proof. apply Qred_correct. Qed.

Lemma this_minus (x y : Qc) : (this (x - y) == this x - this y)%Q.
Proof. unfold Qcminus. rewrite this_plus, this_opp. reflexivity. Qed.

Lemma this_of_Z (z : Z) : (this (of_Z z) == inject_Z z)%Q.
Proof. apply Qred_correct. Qed.

Ltac qc2q :=
  unfold Qcle, Qclt in *;
  repeat match goal with
  | H : context [this (_ + _)] |- _ => rewrite this_plus in H
  | H : context [this (_ * _)] |- _ => rewrite this_mult in H
  | H : context [this (_ - _)] |- _ => rewrite this_minus in H
  | H : context [this (- _)] |- _ => rewrite this_opp in H
  | H : context [this (of_Z _)] |- _ => rewrite this_of_Z in H
  | |- context [this (_ + _)] => rewrite this_plus
  | |- context [this (_ * _)] => rewrite this_mult
  | |- context [this (_ - _)] => rewrite this_minus
  | |- context [this (- _)] => rewrite this_opp
  | |- context [this (of_Z _)] => rewrite this_of_Z
  end;
  change (this 0) with 0%Q in *; change (this 1) with 1%Q in *.

Lemma of_Z_pos (z : Z) : (0 < z)%Z -> 0 < of_Z z.
Proof.
  intros Hz. qc2q. change 0%Q with (inject_Z 0). rewrite <- Zlt_Qlt. exact Hz.
Qed.

Lemma of_Z_neq_0 (z : Z) : (0 < z)%Z -> of_Z z <> 0.
Proof.
  intros Hz E. pose proof (of_Z_pos z Hz) as H. rewrite E in H.
  revert H. apply Qcle_not_lt, Qcle_refl.
Qed.

Lemma of_Z_plus (a b : Z) : of_Z (a + b) = of_Z a + of_Z b.
Proof.
  apply Qc_is_canon. rewrite this_plus, !this_of_Z, inject_Z_plus. reflexivity.
Qed.

Lemma Qcgtb_irrefl (x : Qc) : Qcgtb x x = false.
Proof.
  unfold Qcgtb. replace (x ?= x) with Eq; [reflexivity|].
  symmetry. apply Qceq_alt. reflexivity.
Qed.

Lemma Qcgtb_true (x y : Qc) : Qcgtb x y = true <-> y < x.
Proof.
  unfold Qcgtb. destruct (x ?= y) eqn:E.
  - split; [discriminate|]. intros H. apply Qceq_alt in E. subst.
    exfalso. revert H. apply Qcle_not_lt, Qcle_refl.
  - split; [discriminate|]. intros H. apply Qclt_alt in E.
    exfalso. revert H. apply Qcle_not_lt, Qclt_le_weak, E.
  - split; [intros _|reflexivity]. apply Qcgt_alt in E. exact E.
Qed.

(** ** The smoothing factor *)

Lemma of_Z_2 : of_Z 2 = 1 + 1.
Proof. apply Qc_is_canon. reflexivity. Qed.

Lemma two_neq_0 : (1 + 1 : Qc) <> 0.
Proof. rewrite <- of_Z_2. apply of_Z_neq_0. lia. Qed.

Lemma succ_neq_0 (window : Z) : (0 < window)%Z -> of_Z window + 1 <> 0.
Proof.
  intros Hw. change 1 with (of_Z 1). rewrite <- of_Z_plus.
  apply of_Z_neq_0. lia.
Qed.

Lemma alpha_of_span (window : Z) :
  (0 < window)%Z ->
  1 / (1 + (of_Z window - 1) / of_Z 2) = alpha_of window.
Proof.
  intros Hw. unfold alpha_of. rewrite of_Z_2.
  pose proof (succ_neq_0 window Hw) as H1. pose proof two_neq_0 as H2.
  field. split; [exact H1|].
  intros E. apply H2. rewrite <- E. apply Qc_is_canon. reflexivity.
Qed.

Lemma ewm_mean_ok (window : Z) (vals : list Qc) :
  (0 < window)%Z -> ewm_mean window vals = Ok (ewm_run (alpha_of window) vals).
Proof.
  intros Hw. unfold ewm_mean, get_center_of_mass.
  destruct (window <? 1)%Z eqn:E; [apply Z.ltb_lt in E; lia|].
  cbn [bind]. rewrite alpha_of_span by exact Hw. reflexivity.
Qed.

Lemma ewm_mean_err (window : Z) (vals : list Qc) :
  (window <= 0)%Z -> ewm_mean window vals = Err ValueError.
Proof.
  intros Hw. unfold ewm_mean, get_center_of_mass.
  destruct (window <? 1)%Z eqn:E; [reflexivity|apply Z.ltb_ge in E; lia].
Qed.

Lemma this_div (x y : Qc) : (this (x / y) == this x / this y)%Q.
Proof.
  unfold Qcdiv, Qdiv. rewrite this_mult. apply Qmult_comp; [reflexivity|].
  apply Qred_correct.
Qed.

Lemma alpha_of_range (window : Z) :
  (0 < window)%Z -> 0 < alpha_of window /\ alpha_of window <= 1.
Proof.
  intros Hw. unfold alpha_of, Qclt, Qcle.
  rewrite this_div, this_plus, !this_of_Z.
  change (this 0) with 0%Q. change (this 1) with (inject_Z 1).
  rewrite <- inject_Z_plus.
  assert (Hd : (0 < inject_Z (window + 1))%Q).
  { change 0%Q with (inject_Z 0). rewrite <- Zlt_Qlt. lia. }
  split.
  - apply Qlt_shift_div_l; [exact Hd|]. rewrite Qmult_0_l. reflexivity.
  - apply Qle_shift_div_r; [exact Hd|]. rewrite Qmult_1_l.
    rewrite <- Zle_Qle. lia.
Qed.

(** ** Columns: lengths and indexing *)

Lemma ewm_loop_length (alpha w : Qc) (vals : list Qc) :
  length (ewm_loop alpha w vals) = length vals.
Proof.
  revert w. induction vals as [|c rest IH]; intros w; cbn; [reflexivity|].
  now rewrite IH.
Qed.

Lemma ewm_run_length (alpha : Qc) (vals : list Qc) :
  length (ewm_run alpha vals) = length vals.
Proof.
  destruct vals as [|x0 rest]; cbn; [reflexivity|].
  now rewrite ewm_loop_length.
Qed.

Lemma ewm_run_head (alpha : Qc) (vals : list Qc) :
  nth_error (ewm_run alpha vals) 0 = nth_error vals 0.
Proof. destruct vals; reflexivity. Qed.

Lemma ewm_loop_step (alpha : Qc) (vals : list Qc) :
  forall (w : Qc) (i : nat) (c e : Qc),
    nth_error vals i = Some c ->
    nth_error (w :: ewm_loop alpha w vals) i = Some e ->
    nth_error (ewm_loop alpha w vals) i = Some ((1 - alpha) * e + alpha * c).
Proof.
  induction vals as [|c0 rest IH]; intros w i c e Hc He.
  - destruct i; discriminate.
  - destruct i as [|i]; cbn in *.
    + congruence.
    + apply IH; assumption.
Qed.

Lemma ewm_run_step (alpha : Qc) (vals : list Qc) (i : nat) (c e : Qc) :
  nth_error vals (S i) = Some c ->
  nth_error (ewm_run alpha vals) i = Some e ->
  nth_error (ewm_run alpha vals) (S i) = Some ((1 - alpha) * e + alpha * c).
Proof.
  destruct vals as [|x0 rest]; [discriminate|]. cbn [ewm_run nth_error].
  apply ewm_loop_step.
Qed.

Lemma np_where_gt_length (a b : list Qc) :
  length a = length b -> length (np_where_gt a b) = length a.
Proof.
  intros H. unfold np_where_gt. rewrite length_map, length_combine. lia.
Qed.

Lemma removelast_nth_error {A} (l : list A) (i : nat) :
  (S i < length l)%nat -> nth_error (removelast l) i = nth_error l i.
Proof.
  revert i. induction l as [|x l IH]; intros i Hi; [cbn in Hi; lia|].
  destruct l as [|y l]; [cbn in Hi; lia|].
  destruct i as [|i]; [reflexivity|].
  cbn [removelast nth_error]. change (nth_error (removelast (y :: l)) i = nth_error (y :: l) i).
  apply IH. cbn in *. lia.
Qed.

Lemma shift1_length (xs : list Z) : length (shift1 xs) = length xs.
Proof.
  destruct xs as [|x xs]; [reflexivity|].
  unfold shift1. cbn [length]. rewrite length_map.
  assert (H : forall (l : list Z) (a : Z), S (length (removelast (a :: l))) = length (a :: l)).
  { induction l as [|y l IH]; intros a; [reflexivity|].
    change (removelast (a :: y :: l)) with (a :: removelast (y :: l)).
    cbn [length]. now rewrite IH. }
  apply H.
Qed.

Lemma shift1_head (xs : list Z) :
  xs <> [] -> nth_error (shift1 xs) 0 = Some NaN.
Proof. destruct xs; [congruence|reflexivity]. Qed.

Lemma shift1_succ (xs : list Z) (i : nat) (z : Z) :
  (S i < length xs)%nat ->
  nth_error xs i = Some z ->
  nth_error (shift1 xs) (S i) = Some (Fin (of_Z z)).
Proof.
  intros Hi Hz. destruct xs as [|x xs]; [cbn in Hi; lia|].
  unfold shift1. cbn [nth_error]. rewrite nth_error_map.
  rewrite removelast_nth_error by exact Hi. now rewrite Hz.
Qed.

Lemma pct_change_length (xs : list Qc) : length (pct_change xs) = length xs.
Proof.
  destruct xs as [|x xs]; [reflexivity|].
  unfold pct_change. cbn [length]. rewrite length_map, length_combine.
  cbn [length]. lia.
Qed.

Lemma col_mul_length (xs ys : list float64) :
  length xs = length ys -> length (col_mul xs ys) = length xs.
Proof.
  intros H. unfold col_mul. rewrite length_map, length_combine. lia.
Qed.

(** The pipeline runs for every pair of positive windows, whatever their
    order, and its columns are the ones above. *)
Lemma compute_signals_ok (data : list row) (short long : Z) :
  (0 < short)%Z -> (0 < long)%Z ->
  compute_signals data short long = Ok (columns data short long).
Proof.
  intros Hs Hl. unfold compute_signals.
  rewrite (ewm_mean_ok short) by exact Hs.
  rewrite (ewm_mean_ok long) by exact Hl.
  reflexivity.
Qed.

Lemma compute_signals_err (data : list row) (short long : Z) :
  (short <= 0)%Z \/ (long <= 0)%Z ->
  compute_signals data short long = Err ValueError.
Proof.
  intros H. unfold compute_signals.
  destruct (Z_lt_le_dec 0 short) as [Hs|Hs].
  - destruct H as [H|H]; [lia|].
    rewrite (ewm_mean_ok short) by exact Hs.
    rewrite (ewm_mean_err long) by exact H. reflexivity.
  - rewrite (ewm_mean_err short) by exact Hs. reflexivity.
Qed.

Lemma signal_length (data : list row) (a b : Qc) :
  length (np_where_gt (ewm_run a (closes data)) (ewm_run b (closes data)))
  = length data.
Proof.
  rewrite np_where_gt_length; rewrite !ewm_run_length; unfold closes;
    now rewrite ?length_map.
Qed.

Lemma signal_head (cl : list Qc) (a b : Qc) :
  cl <> [] -> nth_error (np_where_gt (ewm_run a cl) (ewm_run b cl)) 0 = Some 0%Z.
Proof.
  destruct cl as [|c rest]; [congruence|]. intros _.
  cbn. now rewrite Qcgtb_irrefl.
Qed.

Lemma signal_values (a b : list Qc) (i : nat) (z : Z) :
  nth_error (np_where_gt a b) i = Some z -> z = 0%Z \/ z = 1%Z.
Proof.
  unfold np_where_gt. rewrite nth_error_map.
  destruct (nth_error (combine a b) i) as [p|]; [|discriminate].
  cbn. destruct (Qcgtb (fst p) (snd p)); intros [= <-]; auto.
Qed.

(** ** Exponential moving averages *)

Lemma ewm_run_recurrence (window : Z) (cl : list Qc) :
  ema_recurrence window cl (ewm_run (alpha_of window) cl).
Proof.
  split; [apply ewm_run_length|]. split; [apply ewm_run_head|].
  intros i c e Hc He. rewrite (ewm_run_step _ _ _ _ _ Hc He).
  f_equal. ring.
Qed.



(** ** EMAs stay inside the price range *)

Lemma Qc_min_le (a b : Qc) : Qc_min a b <= a /\ Qc_min a b <= b.
Proof.
  unfold Qc_min. destruct (Qcgtb a b) eqn:E.
  - apply Qcgtb_true in E. split; [apply Qclt_le_weak, E|apply Qcle_refl].
  - split; [apply Qcle_refl|].
    destruct (Qclt_le_dec b a) as [H|H]; [|exact H].
    apply Qcgtb_true in H. congruence.
Qed.

Lemma Qc_max_ge (a b : Qc) : a <= Qc_max a b /\ b <= Qc_max a b.
Proof.
  unfold Qc_max. destruct (Qcgtb a b) eqn:E.
  - apply Qcgtb_true in E. split; [apply Qcle_refl|apply Qclt_le_weak, E].
  - split; [|apply Qcle_refl].
    destruct (Qclt_le_dec b a) as [H|H]; [|exact H].
    apply Qcgtb_true in H. congruence.
Qed.

Lemma fold_min_le (rest : list Qc) :
  forall x, fold_left Qc_min rest x <= x /\
            Forall (fun y => fold_left Qc_min rest x <= y) rest.
Proof.
  induction rest as [|y rest IH]; intros x; cbn.
  - split; [apply Qcle_refl|constructor].
  - destruct (IH (Qc_min x y)) as [H1 H2].
    destruct (Qc_min_le x y) as [Hx Hy].
    split; [eapply Qcle_trans; eauto|].
    constructor; [eapply Qcle_trans; eauto|exact H2].
Qed.

Lemma fold_max_ge (rest : list Qc) :
  forall x, x <= fold_left Qc_max rest x /\
            Forall (fun y => y <= fold_left Qc_max rest x) rest.
Proof.
  induction rest as [|y rest IH]; intros x; cbn.
  - split; [apply Qcle_refl|constructor].
  - destruct (IH (Qc_max x y)) as [H1 H2].
    destruct (Qc_max_ge x y) as [Hx Hy].
    split; [eapply Qcle_trans; eauto|].
    constructor; [eapply Qcle_trans; eauto|exact H2].
Qed.

Lemma closes_between (xs : list Qc) :
  Forall (between (col_min xs) (col_max xs)) xs.
Proof.
  destruct xs as [|x rest]; [constructor|]. unfold col_min, col_max.
  destruct (fold_min_le rest x) as [Hm1 Hm2].
  destruct (fold_max_ge rest x) as [HM1 HM2].
  constructor; [split; assumption|].
  rewrite Forall_forall in *. intros y Hy. split; auto.
Qed.

(** A convex combination of two points of an interval is in the interval. *)
Lemma convex_between (alpha lo hi e c : Qc) :
  0 < alpha -> alpha <= 1 -> between lo hi e -> between lo hi c ->
  between lo hi ((1 - alpha) * e + alpha * c).
Proof.
  unfold between. intros Ha0 Ha1 [He1 He2] [Hc1 Hc2]. qc2q.
  generalize dependent (this alpha). generalize dependent (this e).
  generalize dependent (this c). generalize dependent (this lo).
  generalize dependent (this hi). intros. split; nra.
Qed.

Lemma ewm_loop_between (alpha lo hi : Qc) (vals : list Qc) :
  0 < alpha -> alpha <= 1 ->
  forall w, between lo hi w -> Forall (between lo hi) vals ->
            Forall (between lo hi) (ewm_loop alpha w vals).
Proof.
  intros Ha0 Ha1. induction vals as [|c rest IH]; intros w Hw Hv; cbn.
  - constructor.
  - inversion Hv as [|? ? Hc Hrest]; subst.
    assert (H : between lo hi ((1 - alpha) * w + alpha * c))
      by (apply convex_between; assumption).
    constructor; [exact H|]. apply IH; assumption.
Qed.

Lemma ewm_run_between (window : Z) (cl : list Qc) :
  (0 < window)%Z ->
  Forall (between (col_min cl) (col_max cl)) (ewm_run (alpha_of window) cl).
Proof.
  intros Hw. destruct (alpha_of_range window Hw) as [Ha0 Ha1].
  pose proof (closes_between cl) as H.
  destruct cl as [|x rest]; [constructor|].
  inversion H as [|? ? Hx Hrest]; subst.
  cbn [ewm_run]. constructor; [exact Hx|].
  apply ewm_loop_between; assumption.
Qed.



(** ** Signal and position *)

(** C10. With a non-empty table and [0 < short < long] the backtest runs,
    [Signal[0] = 0] (both EMAs start at [close[0]] and the comparison is
    strict), [Position[1] = 0] whenever there is a second bar, and the
    position is 1 on neither of the first two bars. *)
Theorem no_position_on_first_two_bars (data : list row) (short long : Z) :
  data <> [] -> (0 < short < long)%Z ->
  exists s,
    compute_signals data short long = Ok s /\
    nth_error (EMA_short s) 0 = nth_error (closes data) 0 /\
    nth_error (EMA_long s) 0 = nth_error (closes data) 0 /\
    nth_error (Signal s) 0 = Some 0%Z /\
    ((2 <= length data)%nat -> nth_error (Position s) 1 = Some (Fin 0)) /\
    (forall i, (i < 2)%nat -> nth_error (Position s) i <> Some (Fin 1)).
Proof.
  intros Hne [Hs Hl]. eexists. split; [apply compute_signals_ok; lia|]. cbn.
  assert (Hc : closes data <> []) by (destruct data; [congruence|discriminate]).
  pose proof (signal_head (closes data) (alpha_of short) (alpha_of long) Hc) as H0.
  pose proof (signal_length data (alpha_of short) (alpha_of long)) as Hlen.
  assert (H1 : (2 <= length data)%nat ->
               nth_error (shift1 (np_where_gt (ewm_run (alpha_of short) (closes data))
                                              (ewm_run (alpha_of long) (closes data)))) 1
               = Some (Fin 0)).
  { intros H2. rewrite (shift1_succ _ 0 0%Z); [reflexivity|lia|exact H0]. }
  repeat split; try apply ewm_run_head; try assumption.
  intros i Hi. destruct i as [|[|i]]; [| |lia].
  - rewrite shift1_head; [discriminate|].
    intros E. rewrite E in H0. discriminate.
  - destruct (le_lt_dec 2 (length data)) as [H2|H2].
    + rewrite (H1 H2). discriminate.
    + intros E.
      assert (Hn : (1 < length (shift1 (np_where_gt (ewm_run (alpha_of short) (closes data))
                                              (ewm_run (alpha_of long) (closes data)))))%nat).
      { apply nth_error_Some. congruence. }
      rewrite shift1_length, Hlen in Hn. lia.
Qed.

Lemma no_position_on_first_two_bars_witness :
  exists s,
    compute_signals four_bars 2 4 = Ok s /\
    nth_error (EMA_short s) 0 = nth_error (closes four_bars) 0 /\
    nth_error (EMA_long s) 0 = nth_error (closes four_bars) 0 /\
    nth_error (Signal s) 0 = Some 0%Z /\
    ((2 <= length four_bars)%nat ->
     nth_error (Position s) 1 = Some (Fin 0)) /\
    (forall i, (i < 2)%nat -> nth_error (Position s) i <> Some (Fin 1)).
Proof.
  apply (no_position_on_first_two_bars four_bars 2 4);
    [discriminate | lia].
Defined.

(** C1, as the code has it.  For positive windows the backtest runs and
    [Position[i] = Signal[i-1]] for every [i >= 1]; [Position[0]] is [NaN]
    (what [shift(1)] leaves in the first row), not 0. *)
Theorem position_is_lagged_signal (data : list row) (short long : Z) :
  (0 < short)%Z -> (0 < long)%Z ->
  exists s,
    compute_signals data short long = Ok s /\
    length (Signal s) = length data /\
    length (Position s) = length data /\
    (data <> [] -> nth_error (Position s) 0 = Some NaN) /\
    (forall i, (S i < length data)%nat ->
       exists z, nth_error (Signal s) i = Some z /\ (z = 0 \/ z = 1)%Z /\
                 nth_error (Position s) (S i) = Some (Fin (of_Z z))).
Proof.
  intros Hs Hl. eexists. split; [apply compute_signals_ok; lia|]. cbn.
  pose proof (signal_length data (alpha_of short) (alpha_of long)) as Hlen.
  split; [exact Hlen|]. split; [now rewrite shift1_length|]. split.
  - intros Hne. apply shift1_head. intros E. rewrite E in Hlen.
    destruct data; [congruence|discriminate].
  - intros i Hi.
    destruct (nth_error (np_where_gt (ewm_run (alpha_of short) (closes data))
                                     (ewm_run (alpha_of long) (closes data))) i)
      as [z|] eqn:Ez.
    + exists z. split; [reflexivity|]. split; [eapply signal_values; eauto|].
      apply shift1_succ; [lia|exact Ez].
    + apply nth_error_None in Ez. lia.
Qed.

Lemma position_is_lagged_signal_witness :
  exists s,
    compute_signals four_bars 2 4 = Ok s /\
    length (Signal s) = length four_bars /\
    length (Position s) = length four_bars /\
    (four_bars <> [] -> nth_error (Position s) 0 = Some NaN) /\
    (forall i, (S i < length four_bars)%nat ->
       exists z, nth_error (Signal s) i = Some z /\ (z = 0 \/ z = 1)%Z /\
                 nth_error (Position s) (S i) = Some (Fin (of_Z z))).
Proof.
  apply (position_is_lagged_signal four_bars 2 4); lia.
Defined.

(** C1 as stated fails: on the ten-bar series below, with windows 2 and 4,
    the first position is [NaN], which is not the number 0. *)
Lemma first_position_is_not_zero :
  exists s,
    compute_signals ten_bars 2 4 = Ok s /\
    (2 <= length ten_bars)%nat /\
    nth_error (Position s) 0 = Some NaN /\
    nth_error (Position s) 0 <> Some (Fin 0).
Proof.
  eexists. split; [apply compute_signals_ok; lia|].
  split; [cbn; lia|]. split; [reflexivity|discriminate].
Qed.

(** ** Portfolio simulation *)

Lemma fmul_comm (x y : float64) : fmul x y = fmul y x.
Proof.
  destruct x as [a|s|], y as [b|t|]; cbn; try reflexivity.
  - now rewrite Qcmult_comm.
  - now rewrite xorb_comm.
Qed.

Lemma one_plus_isna (x : float64) : isna (fadd (Fin 1) x) = isna x.
Proof. destruct x; reflexivity. Qed.

Lemma cumprod_from_defined (ys : list float64) :
  forall (acc : float64) (i : nat),
    (i < length ys)%nat ->
    Forall (fun y => isna y = false) (firstn (S i) ys) ->
    nth_error (cumprod_from acc ys) i = Some (fold_left fmul (firstn (S i) ys) acc).
Proof.
  induction ys as [|y ys IH]; intros acc i Hi Hd; [cbn in Hi; lia|].
  cbn [firstn] in Hd. inversion Hd as [|? ? Hy Hrest]; subst.
  cbn [cumprod_from]. rewrite Hy. destruct i as [|i].
  - reflexivity.
  - cbn [nth_error]. rewrite IH; [reflexivity|cbn in Hi; lia|exact Hrest].
Qed.

Lemma firstn_defined (l : list float64) :
  forall i, (forall k, (k < i)%nat -> nth_error l k <> Some NaN) ->
            Forall (fun y => isna y = false) (firstn i l).
Proof.
  induction l as [|x l IH]; intros i H.
  - rewrite firstn_nil. constructor.
  - destruct i as [|i]; [constructor|]. cbn [firstn]. constructor.
    + specialize (H 0%nat ltac:(lia)). cbn in H.
      destruct x; try reflexivity. congruence.
    + apply IH. intros k Hk. apply (H (S k)). lia.
Qed.

(** Below a first row that is missing, [cumprod] of [1 + r] is the running
    product from row 1 on, as long as no row is missing. *)
Lemma cumprod_one_plus (r : list float64) (i : nat) :
  nth_error r 0 = Some NaN ->
  (1 <= i < length r)%nat ->
  (forall k, (1 <= k <= i)%nat -> nth_error r k <> Some NaN) ->
  nth_error (cumprod (one_plus r)) i = Some (prod_from_1 r i).
Proof.
  intros H0 Hi Hd. destruct r as [|x r]; [discriminate|].
  injection H0 as ->. destruct i as [|j]; [lia|].
  unfold cumprod, prod_from_1, one_plus. cbn [map cumprod_from fadd isna nth_error skipn].
  rewrite cumprod_from_defined.
  - now rewrite firstn_map.
  - rewrite length_map. cbn in Hi. lia.
  - rewrite firstn_map, Forall_map.
    assert (H : Forall (fun y => isna y = false) (firstn (S j) r)).
    { apply firstn_defined. intros k Hk. apply (Hd (S k)). lia. }
    revert H. apply Forall_impl. intros a Ha. now rewrite one_plus_isna.
Qed.

Lemma cumprod_head_nan (r : list float64) :
  nth_error r 0 = Some NaN -> nth_error (cumprod (one_plus r)) 0 = Some NaN.
Proof. destruct r as [|x r]; [discriminate|]. intros [= ->]. reflexivity. Qed.

Lemma cumprod_from_length (ys : list float64) :
  forall acc, length (cumprod_from acc ys) = length ys.
Proof.
  induction ys as [|y ys IH]; intros acc; [reflexivity|].
  cbn. destruct (isna y); cbn; now rewrite IH.
Qed.

Lemma pct_change_head (cl : list Qc) :
  cl <> [] -> nth_error (pct_change cl) 0 = Some NaN.
Proof. destruct cl; [congruence|reflexivity]. Qed.

Lemma combine_tail_nth {A} (l : list A) :
  forall (k : nat) (a b : A),
    nth_error l k = Some a -> nth_error l (S k) = Some b ->
    nth_error (combine l (tl l)) k = Some (a, b).
Proof.
  induction l as [|x l IH]; intros k a b Ha Hb; [destruct k; discriminate|].
  destruct l as [|y l]; [destruct k; discriminate|].
  destruct k as [|k]; cbn in *; [congruence|].
  apply (IH k a b); assumption.
Qed.

Lemma pct_change_succ (cl : list Qc) (k : nat) (prev cur : Qc) :
  nth_error cl k = Some prev -> nth_error cl (S k) = Some cur ->
  nth_error (pct_change cl) (S k)
  = Some (fsub (fdiv (Fin cur) (Fin prev)) (Fin 1)).
Proof.
  intros Hp Hc. destruct cl as [|x rest]; [destruct k; discriminate|].
  unfold pct_change. cbn [nth_error]. rewrite nth_error_map.
  pose proof (combine_tail_nth (x :: rest) k prev cur Hp Hc) as H.
  cbn [tl] in H. now rewrite H.
Qed.

Lemma fdiv_fin (a b : Qc) : b <> 0 -> fdiv (Fin a) (Fin b) = Fin (a / b).
Proof.
  intros Hb. cbn. destruct (b ?= 0) eqn:E; try reflexivity.
  apply Qceq_alt in E. contradiction.
Qed.

Lemma col_mul_nth (xs ys : list float64) (k : nat) (x y : float64) :
  nth_error xs k = Some x -> nth_error ys k = Some y ->
  nth_error (col_mul xs ys) k = Some (fmul x y).
Proof.
  intros Hx Hy. unfold col_mul. rewrite nth_error_map.
  assert (H : nth_error (combine xs ys) k = Some (x, y)).
  { revert ys k Hx Hy. induction xs as [|a xs IH]; intros ys k Hx Hy;
      [destruct k; discriminate|].
    destruct ys as [|b ys]; [destruct k; discriminate|].
    destruct k; cbn in *; [congruence|]. now apply IH. }
  now rewrite H.
Qed.

(** Where the previous close is not zero, the return is a finite number and
    the strategy return is that number times the lagged signal. *)
Lemma returns_finite_at (data : list row) (a b : Qc) (k : nat) :
  (forall prev, nth_error (closes data) k = Some prev -> prev <> 0) ->
  (S k < length data)%nat ->
  let signal := np_where_gt (ewm_run a (closes data)) (ewm_run b (closes data)) in
  exists q z,
    nth_error (pct_change (closes data)) (S k) = Some (Fin q) /\
    nth_error signal k = Some z /\ (z = 0 \/ z = 1)%Z /\
    nth_error (col_mul (pct_change (closes data)) (shift1 signal)) (S k)
    = Some (Fin (q * of_Z z)).
Proof.
  intros Hnz Hk signal.
  destruct (nth_error (closes data) k) as [prev|] eqn:Ep.
  2:{ apply nth_error_None in Ep. unfold closes in Ep. rewrite length_map in Ep. lia. }
  destruct (nth_error (closes data) (S k)) as [cur|] eqn:Ec.
  2:{ apply nth_error_None in Ec. unfold closes in Ec. rewrite length_map in Ec. lia. }
  assert (Hprev : prev <> 0) by (apply Hnz; reflexivity).
  destruct (nth_error signal k) as [z|] eqn:Ez.
  2:{ apply nth_error_None in Ez. unfold signal in Ez.
      rewrite signal_length in Ez. lia. }
  exists (cur / prev - 1), z.
  assert (Hr : nth_error (pct_change (closes data)) (S k) = Some (Fin (cur / prev - 1))).
  { rewrite (pct_change_succ _ _ _ _ Ep Ec), fdiv_fin by exact Hprev. reflexivity. }
  split; [exact Hr|]. split; [reflexivity|].
  split; [eapply signal_values; eauto|].
  apply (col_mul_nth _ _ _ (Fin (cur / prev - 1)) (Fin (of_Z z))); [exact Hr|].
  apply shift1_succ; [|exact Ez]. unfold signal. rewrite signal_length. lia.
Qed.

(** With no zero price, every return from row 1 on is a finite number. *)
Lemma returns_finite (data : list row) (a b : Qc) (k : nat) :
  Forall (fun r => Close r <> 0) data ->
  (S k < length data)%nat ->
  let signal := np_where_gt (ewm_run a (closes data)) (ewm_run b (closes data)) in
  exists q z,
    nth_error (pct_change (closes data)) (S k) = Some (Fin q) /\
    nth_error signal k = Some z /\ (z = 0 \/ z = 1)%Z /\
    nth_error (col_mul (pct_change (closes data)) (shift1 signal)) (S k)
    = Some (Fin (q * of_Z z)).
Proof.
  intros Hnz Hk. apply returns_finite_at; [|exact Hk].
  intros prev Ep. unfold closes in Ep. rewrite nth_error_map in Ep.
  destruct (nth_error data k) as [r|] eqn:Er; [|discriminate].
  injection Ep as <-. rewrite Forall_forall in Hnz. apply Hnz.
  eapply nth_error_In; eauto.
Qed.

(** C2, as the code has it.  For positive windows the backtest runs; the
    first row of [Portfolio_Value] and of [Buy_Hold_Value] is [NaN], not the
    initial cash; at every row [i >= 1] up to which no strategy return is
    missing, [Portfolio_Value[i]] is the initial cash times the product of
    [1 + Strategy_Return[k]] for [k = 1 .. i], and likewise
    [Buy_Hold_Value[i]] with [Return]; and no return from row 1 on is
    missing when no price is zero. *)
Theorem portfolio_value_is_running_product
    (data : list row) (short long : Z) (initial_cash : Qc) :
  (0 < short)%Z -> (0 < long)%Z ->
  exists s,
    compute_signals data short long = Ok s /\
    (data <> [] ->
       nth_error (Portfolio_Value s initial_cash) 0 = Some NaN /\
       nth_error (Buy_Hold_Value s initial_cash) 0 = Some NaN) /\
    (forall i, (1 <= i < length data)%nat ->
       (forall k, (1 <= k <= i)%nat -> nth_error (Strategy_Return s) k <> Some NaN) ->
       nth_error (Portfolio_Value s initial_cash) i
       = Some (fmul (Fin initial_cash) (prod_from_1 (Strategy_Return s) i))) /\
    (forall i, (1 <= i < length data)%nat ->
       (forall k, (1 <= k <= i)%nat -> nth_error (Return s) k <> Some NaN) ->
       nth_error (Buy_Hold_Value s initial_cash) i
       = Some (fmul (Fin initial_cash) (prod_from_1 (Return s) i))) /\
    (Forall (fun r => Close r <> 0) data ->
     forall k, (1 <= k < length data)%nat ->
       nth_error (Strategy_Return s) k <> Some NaN /\
       nth_error (Return s) k <> Some NaN).
Proof.
  intros Hs Hl. eexists. split; [apply compute_signals_ok; lia|].
  unfold Portfolio_Value, Buy_Hold_Value, columns. cbn [Strategy_Return Return].
  set (signal := np_where_gt (ewm_run (alpha_of short) (closes data))
                             (ewm_run (alpha_of long) (closes data))).
  assert (Hlen : length signal = length data) by apply signal_length.
  assert (Hcl : length (closes data) = length data)
    by (unfold closes; apply length_map).
  assert (Hr0 : data <> [] -> nth_error (pct_change (closes data)) 0 = Some NaN).
  { intros Hne. apply pct_change_head. destruct data; [congruence|discriminate]. }
  assert (Hs0 : data <> [] ->
                nth_error (col_mul (pct_change (closes data)) (shift1 signal)) 0
                = Some NaN).
  { intros Hne. rewrite (col_mul_nth _ _ 0 NaN NaN); [reflexivity|auto|].
    apply shift1_head. intros E. rewrite E in Hlen.
    destruct data; [congruence|discriminate]. }
  assert (Hne : forall i, (1 <= i < length data)%nat -> data <> []).
  { intros i Hi E. rewrite E in Hi. cbn in Hi. lia. }
  repeat split.
  - rewrite nth_error_map, cumprod_head_nan; auto.
  - rewrite nth_error_map, cumprod_head_nan; auto.
  - intros i Hi Hd. rewrite nth_error_map, cumprod_one_plus; eauto.
    + cbn. now rewrite fmul_comm.
    + rewrite col_mul_length; rewrite pct_change_length; [lia|].
      now rewrite shift1_length, Hlen, Hcl.
  - intros i Hi Hd. rewrite nth_error_map, cumprod_one_plus; eauto.
    + cbn. now rewrite fmul_comm.
    + rewrite pct_change_length. lia.
  - destruct k as [|k]; [lia|].
    destruct (returns_finite data (alpha_of short) (alpha_of long) k H)
      as (q & z & _ & _ & _ & E); [lia|].
    fold signal in E. rewrite E. discriminate.
  - destruct k as [|k]; [lia|].
    destruct (returns_finite data (alpha_of short) (alpha_of long) k H)
      as (q & z & E & _); [lia|].
    rewrite E. discriminate.
Qed.

Lemma portfolio_value_is_running_product_witness :
  exists s,
    compute_signals four_bars 2 4 = Ok s /\
    (four_bars <> [] ->
       nth_error (Portfolio_Value s (of_Z 10000)) 0 = Some NaN /\
       nth_error (Buy_Hold_Value s (of_Z 10000)) 0 = Some NaN) /\
    (forall i, (1 <= i < length four_bars)%nat ->
       (forall k, (1 <= k <= i)%nat -> nth_error (Strategy_Return s) k <> Some NaN) ->
       nth_error (Portfolio_Value s (of_Z 10000)) i
       = Some (fmul (Fin (of_Z 10000)) (prod_from_1 (Strategy_Return s) i))) /\
    (forall i, (1 <= i < length four_bars)%nat ->
       (forall k, (1 <= k <= i)%nat -> nth_error (Return s) k <> Some NaN) ->
       nth_error (Buy_Hold_Value s (of_Z 10000)) i
       = Some (fmul (Fin (of_Z 10000)) (prod_from_1 (Return s) i))) /\
    (Forall (fun r => Close r <> 0) four_bars ->
     forall k, (1 <= k < length four_bars)%nat ->
       nth_error (Strategy_Return s) k <> Some NaN /\
       nth_error (Return s) k <> Some NaN).
Proof.
  apply (portfolio_value_is_running_product
           four_bars 2 4 (of_Z 10000)); lia.
Defined.

(** C2 as stated fails at index 0: on the ten-bar series, with windows 2
    and 4 and 10000 of initial cash, the first portfolio value and the first
    buy-and-hold value are [NaN], not 10000. *)
Lemma first_portfolio_value_is_not_initial_cash :
  exists s,
    compute_signals ten_bars 2 4 = Ok s /\
    0 < of_Z 10000 /\
    nth_error (Portfolio_Value s (of_Z 10000)) 0 = Some NaN /\
    nth_error (Portfolio_Value s (of_Z 10000)) 0 <> Some (Fin (of_Z 10000)) /\
    nth_error (Buy_Hold_Value s (of_Z 10000)) 0 = Some NaN /\
    nth_error (Buy_Hold_Value s (of_Z 10000)) 0 <> Some (Fin (of_Z 10000)).
Proof.
  eexists. split; [apply compute_signals_ok; lia|].
  split; [reflexivity|].
  repeat split; try reflexivity; discriminate.
Qed.

(** ** Trade analysis *)

Lemma filter_unique_label (data : list row) (l : Z) :
  NoDup (index data) -> In l (index data) ->
  exists r, filter (fun r => (Date r =? l)%Z) data = [r] /\
            find (fun r => (Date r =? l)%Z) data = Some r /\
            In r data /\ Date r = l.
Proof.
  induction data as [|x data IH]; intros Hnd Hin; [contradiction|].
  cbn [index map] in Hnd. inversion Hnd as [|? ? Hx Hnd']; subst.
  cbn [filter find]. destruct (Date x =? l)%Z eqn:E.
  - apply Z.eqb_eq in E. exists x. repeat split; auto; [|now left].
    f_equal.
    assert (Hnone : forall r, In r data -> (Date r =? l)%Z = false).
    { intros r Hr. apply Z.eqb_neq. intros E'. apply Hx.
      rewrite E, <- E'. apply in_map, Hr. }
    clear -Hnone. induction data as [|y data IH]; [reflexivity|].
    cbn. rewrite Hnone by now left. apply IH. intros r Hr. apply Hnone. now right.
  - apply Z.eqb_neq in E. destruct Hin as [Hin|Hin]; [contradiction|].
    destruct (IH Hnd' Hin) as (r & H1 & H2 & H3 & H4).
    exists r. repeat split; auto. now right.
Qed.

Lemma loc_close_ok (data : list row) (labels : list Z) :
  NoDup (index data) ->
  (forall l, In l labels -> In l (index data)) ->
  exists ps, loc_close data labels = Ok ps /\
             length ps = length labels /\
             Forall2 (fun l p => close_on data l = Some p) labels ps.
Proof.
  intros Hnd. induction labels as [|l labels IH]; intros Hin.
  - exists []. repeat split. constructor.
  - destruct IH as (ps & H1 & H2 & H3); [intros; apply Hin; now right|].
    destruct (filter_unique_label data l Hnd (Hin l (or_introl eq_refl)))
      as (r & Hf & Hfind & _ & _).
    exists (Close r :: ps). cbn [loc_close]. rewrite Hf, H1. cbn.
    repeat split; [now rewrite H2|].
    constructor; [|exact H3]. unfold close_on. now rewrite Hfind.
Qed.

Lemma index_where_in (data : list row) (col : list float64) (v : float64) (l : Z) :
  In l (index_where data col v) -> In l (index data).
Proof.
  unfold index_where, index. rewrite in_map_iff.
  intros ((r & x) & <- & Hp). apply filter_In in Hp as [Hp _].
  apply in_combine_l in Hp. now apply in_map.
Qed.

Lemma iloc_last_snoc {A} (l : list A) (x : A) : iloc_last (l ++ [x]) = Ok x.
Proof. unfold iloc_last. now rewrite rev_app_distr. Qed.

Lemma iloc_last_inv {A} (l : list A) (x : A) :
  iloc_last l = Ok x -> exists l', l = l' ++ [x].
Proof.
  unfold iloc_last. destruct (rev l) as [|y r] eqn:E; [discriminate|].
  intros [= ->]. exists (rev r). rewrite <- (rev_involutive l), E. reflexivity.
Qed.

Lemma iloc_last_nonempty {A} (l : list A) :
  l <> [] -> exists x, iloc_last l = Ok x.
Proof.
  intros H. unfold iloc_last. destruct (rev l) as [|y r] eqn:E; [|eauto].
  exfalso. apply H. rewrite <- (rev_involutive l), E. reflexivity.
Qed.

Lemma iloc_last_map {A B} (f : A -> B) (l : list A) (x : A) :
  iloc_last l = Ok x -> iloc_last (map f l) = Ok (f x).
Proof.
  intros H. apply iloc_last_inv in H as [l' ->].
  rewrite map_app. apply iloc_last_snoc.
Qed.

Lemma zip_trades_columns (en : list Z) :
  forall (ex : list Z) (enp exp : list Qc),
    length ex = length en -> length enp = length en -> length exp = length en ->
    let ts := zip_trades en ex enp exp in
    length ts = length en /\
    map Entry ts = en /\ map Exit ts = ex /\
    map Entry_Price ts = enp /\ map Exit_Price ts = exp /\
    Forall (fun t => Return_pct t = trade_return_pct (Entry_Price t) (Exit_Price t)) ts.
Proof.
  induction en as [|e en IH]; intros ex enp exp H1 H2 H3.
  - destruct ex, enp, exp; try discriminate. cbn. repeat split. constructor.
  - destruct ex as [|x ex], enp as [|p enp], exp as [|q exp]; try discriminate.
    cbn in H1, H2, H3.
    destruct (IH ex enp exp) as (L & A & B & C & D & E); try lia.
    cbn. rewrite L, A, B, C, D. repeat split. constructor; [reflexivity|exact E].
Qed.

Lemma Forall2_map_l {A B C} (f : A -> C) (P : C -> B -> Prop) (l : list A) (m : list B) :
  Forall2 (fun a b => P (f a) b) l m -> Forall2 P (map f l) m.
Proof. induction 1; cbn; constructor; auto. Qed.

Lemma trades_prices (data : list row) (ts : list trade) :
  Forall2 (fun l p => close_on data l = Some p) (map Entry ts) (map Entry_Price ts) ->
  Forall2 (fun l p => close_on data l = Some p) (map Exit ts) (map Exit_Price ts) ->
  Forall (fun t => close_on data (Entry t) = Some (Entry_Price t) /\
                   close_on data (Exit t) = Some (Exit_Price t)) ts.
Proof.
  induction ts as [|t ts IH]; cbn; intros H1 H2; [constructor|].
  inversion H1; inversion H2; subst. constructor; auto.
Qed.

Lemma close_on_row (data : list row) (r : row) :
  NoDup (index data) -> In r data -> close_on data (Date r) = Some (Close r).
Proof.
  intros Hnd Hin. unfold close_on.
  induction data as [|x data IH]; [contradiction|].
  cbn [index map] in Hnd. inversion Hnd as [|? ? Hx Hnd']; subst.
  cbn [find]. destruct (Date x =? Date r)%Z eqn:E.
  - apply Z.eqb_eq in E. destruct Hin as [->|Hin]; [reflexivity|].
    exfalso. apply Hx. rewrite E. now apply in_map.
  - destruct Hin as [->|Hin]; [rewrite Z.eqb_refl in E; discriminate|].
    now apply IH.
Qed.

(** Lines 37-44 when the exits are as many as the entries, or one short:
    the exits are completed to the number of entries, both price look-ups
    succeed with one price per label, and the table is the row-by-row zip of
    the four columns. *)
Lemma extract_trades_built (data : list row) (position : list float64) :
  NoDup (index data) ->
  length (exits data position) = length (entries data position) \/
  S (length (exits data position)) = length (entries data position) ->
  exists ex' enp exp,
    extract_trades data position
    = Ok (zip_trades (entries data position) ex' enp exp) /\
    length ex' = length (entries data position) /\
    length enp = length (entries data position) /\
    length exp = length (entries data position) /\
    Forall2 (fun l p => close_on data l = Some p) (entries data position) enp /\
    Forall2 (fun l p => close_on data l = Some p) ex' exp /\
    (length (exits data position) = length (entries data position) ->
       ex' = exits data position) /\
    (S (length (exits data position)) = length (entries data position) ->
       exists r, iloc_last data = Ok r /\ In r data /\
                 ex' = exits data position ++ [Date r]).
Proof.
  intros Hnd Hk. unfold extract_trades.
  set (en := entries data position) in *. set (ex := exits data position) in *.
  assert (Hen : forall l, In l en -> In l (index data))
    by (intros l; apply index_where_in).
  assert (Hex : forall l, In l ex -> In l (index data))
    by (intros l; apply index_where_in).
  (* the exits after lines 37-38 *)
  assert (Hpad : exists ex',
             padded_exits data position = Ok ex' /\ length ex' = length en /\
             (forall l, In l ex' -> In l (index data)) /\
             (length ex = length en -> ex' = ex) /\
             (S (length ex) = length en ->
              exists r, iloc_last data = Ok r /\ In r data /\ ex' = ex ++ [Date r])).
  { unfold padded_exits. fold en ex. destruct Hk as [Hk|Hk].
    - rewrite (proj2 (Nat.ltb_ge _ _)) by lia. exists ex.
      repeat split; auto. lia.
    - rewrite (proj2 (Nat.ltb_lt _ _)) by lia.
      destruct (iloc_last_nonempty data) as [r Hr].
      { intros ->. destruct en; [discriminate|].
        assert (Hi : In z (index [])) by (apply Hen; now left). contradiction. }
      pose proof (iloc_last_map Date data r Hr) as Hm. fold (index data) in Hm.
      rewrite Hm. cbn [bind].
      exists (ex ++ [Date r]).
      assert (Hin : In r data).
      { apply iloc_last_inv in Hr as [l' ->]. apply in_or_app. right. now left. }
      repeat split.
      + rewrite length_app. cbn. lia.
      + intros l Hl. apply in_app_or in Hl as [Hl|[<-|[]]]; [auto|].
        apply in_map, Hin.
      + lia.
      + intros _. exists r. auto. }
  destruct Hpad as (ex' & Hp & Hlen & Hex' & Hsame & Hopen). rewrite Hp. cbn [bind].
  rewrite (proj2 (Nat.eqb_eq _ _)) by lia. cbn [negb].
  destruct (loc_close_ok data en Hnd Hen) as (enp & E1 & L1 & F1).
  destruct (loc_close_ok data ex' Hnd Hex') as (exp & E2 & L2 & F2).
  exists ex', enp, exp.
  split; [|repeat split; auto; lia].
  destruct en as [|e en0] eqn:Een.
  - destruct ex'; [|discriminate]. reflexivity.
  - rewrite E1. cbn [bind]. rewrite (proj2 (Nat.eqb_eq _ _)) by lia. cbn [negb].
    rewrite E2. cbn [bind]. rewrite (proj2 (Nat.eqb_eq _ _)) by lia. reflexivity.
Qed.


Lemma four_bars_dates : NoDup (index four_bars).
Proof.
  unfold four_bars, daily_bars, index. cbn.
  repeat constructor; cbn; intuition discriminate.
Qed.


(** *** Entries and exits of a lagged 0/1 signal alternate *)

Lemma entry_transition (prev cur : bool) :
  feq (fsub (of_bool cur) (of_bool prev)) (Fin 1) = cur && negb prev.
Proof. destruct prev, cur; reflexivity. Qed.

Lemma exit_transition (prev cur : bool) :
  feq (fsub (of_bool cur) (of_bool prev)) (Fin (- (1))) = negb cur && prev.
Proof. destruct prev, cur; reflexivity. Qed.

(** Along any prefix of the rows, entries minus exits is the change of the
    position from where it started. *)
Lemma transitions_balance (bs : list bool) :
  forall (prev : bool) (rows : list row),
    let tr := map (fun p => fsub (snd p) (fst p))
                  (combine (map of_bool (prev :: bs)) (map of_bool bs)) in
    exists cur : bool,
      (length (filter (fun p => feq (snd p) (Fin 1)) (combine rows tr))
       + Nat.b2n prev
       = length (filter (fun p => feq (snd p) (Fin (- (1)))) (combine rows tr))
         + Nat.b2n cur)%nat.
Proof.
  induction bs as [|c bs IH]; intros prev rows tr.
  - exists prev. subst tr. cbn [map combine]. rewrite combine_nil. reflexivity.
  - destruct rows as [|r rows]; [exists prev; reflexivity|].
    destruct (IH c rows) as [cur Hcur]. exists cur.
    subst tr. cbn [map combine filter fst snd] in *.
    rewrite entry_transition, exit_transition.
    destruct prev, c; cbn [andb negb length Nat.b2n] in *; lia.
Qed.

Lemma removelast_map {A B} (f : A -> B) (l : list A) :
  removelast (map f l) = map f (removelast l).
Proof.
  induction l as [|x l IH]; [reflexivity|].
  destruct l as [|y l]; [reflexivity|].
  cbn [map removelast] in *. now rewrite IH.
Qed.

Lemma np_where_gt_bools (a b : list Qc) :
  np_where_gt a b
  = map Z.b2z (map (fun p => Qcgtb (fst p) (snd p)) (combine a b)).
Proof.
  unfold np_where_gt. rewrite map_map. apply map_ext.
  intros p. destruct (Qcgtb (fst p) (snd p)); reflexivity.
Qed.

Lemma entries_length (data : list row) (position : list float64) :
  length (entries data position)
  = length (filter (fun p => feq (snd p) (Fin 1)) (combine data (diff position))).
Proof. unfold entries, index_where, Trade. apply length_map. Qed.

Lemma exits_length (data : list row) (position : list float64) :
  length (exits data position)
  = length (filter (fun p => feq (snd p) (Fin (- (1)))) (combine data (diff position))).
Proof. unfold exits, index_where, Trade. apply length_map. Qed.

Lemma shift1_bools (bs : list bool) :
  shift1 (map Z.b2z bs)
  = match bs with
    | [] => []
    | _ :: _ => NaN :: map of_bool (removelast bs)
    end.
Proof.
  destruct bs as [|b bs]; [reflexivity|].
  change (shift1 (map Z.b2z (b :: bs)))
    with (NaN :: map (fun z => Fin (of_Z z)) (removelast (map Z.b2z (b :: bs)))).
  now rewrite removelast_map, map_map.
Qed.

Lemma diff_cons2 (x y : float64) (l : list float64) :
  diff (x :: y :: l)
  = NaN :: fsub y x :: map (fun p => fsub (snd p) (fst p)) (combine (y :: l) l).
Proof. reflexivity. Qed.

Lemma lagged_signal_alternates (data : list row) (bs : list bool) :
  hd false bs = false ->
  let position := shift1 (map Z.b2z bs) in
  length (exits data position) = length (entries data position) \/
  S (length (exits data position)) = length (entries data position).
Proof.
  intros Hhd position. rewrite entries_length, exits_length. subst position.
  rewrite shift1_bools.
  destruct bs as [|b0 [|b1 bs]].
  - left. cbn. now rewrite combine_nil.
  - left. destruct data as [|r [|r' data]]; reflexivity.
  - cbn in Hhd. subst b0.
    change (removelast (false :: b1 :: bs)) with (false :: removelast (b1 :: bs)).
    set (rl := removelast (b1 :: bs)).
    cbn [map]. rewrite diff_cons2.
    destruct data as [|r0 [|r1 rows]]; [left; reflexivity|left; reflexivity|].
    destruct (transitions_balance rl false rows) as [cur Hcur].
    cbn [map Nat.b2n] in Hcur. rewrite Nat.add_0_r in Hcur.
    set (tr := map (fun p => fsub (snd p) (fst p))
                   (combine (of_bool false :: map of_bool rl) (map of_bool rl))) in *.
    clearbody tr.
    cbn [combine filter fst snd]. cbn [fsub fneg fadd of_bool feq].
    rewrite Hcur.
    destruct cur; cbn [Nat.b2n]; [right|left]; lia.
Qed.

Lemma derived_position_alternates (data : list row) (a b : Qc) :
  let position := shift1 (np_where_gt (ewm_run a (closes data))
                                      (ewm_run b (closes data))) in
  length (exits data position) = length (entries data position) \/
  S (length (exits data position)) = length (entries data position).
Proof.
  intros position. subst position. rewrite np_where_gt_bools.
  apply lagged_signal_alternates.
  destruct (closes data) as [|c rest]; [reflexivity|].
  cbn. apply Qcgtb_irrefl.
Qed.

(** The trade table of the position column that the backtest derives. *)
Lemma derived_trades_ok (data : list row) (short long : Z) :
  NoDup (index data) ->
  exists trades,
    extract_trades data (Position (columns data short long)) = Ok trades /\
    length trades = length (entries data (Position (columns data short long))).
Proof.
  intros Hnd. unfold columns. cbn [Position].
  destruct (extract_trades_built data _ Hnd
              (derived_position_alternates data (alpha_of short) (alpha_of long)))
    as (ex' & enp & exp & Hres & Hlen & L1 & L2 & _).
  eexists. split; [exact Hres|].
  apply zip_trades_columns; assumption.
Qed.

(** C5. On a table without duplicate dates, whatever position column the
    backtest derives, the trade table is built (no exception), with one
    trade per entry; and a position column with no entry and no exit gives
    the empty trade table. *)
Theorem extract_trades_never_fails (data : list row) (short long : Z) (s : signals) :
  NoDup (index data) ->
  compute_signals data short long = Ok s ->
  (exists trades,
     extract_trades data (Position s) = Ok trades /\
     length trades = length (entries data (Position s))) /\
  (forall position,
     entries data position = [] -> exits data position = [] ->
     extract_trades data position = Ok []).
Proof.
  intros Hnd Hs. split.
  - destruct (Z_lt_le_dec 0 short) as [H0|H0];
      [|rewrite compute_signals_err in Hs by lia; discriminate].
    destruct (Z_lt_le_dec 0 long) as [H1|H1];
      [|rewrite compute_signals_err in Hs by lia; discriminate].
    rewrite compute_signals_ok in Hs by lia. injection Hs as <-.
    apply derived_trades_ok. exact Hnd.
  - intros position Hen Hex. unfold extract_trades, padded_exits.
    rewrite Hen, Hex. reflexivity.
Qed.

Lemma extract_trades_never_fails_witness :
  (exists trades,
     extract_trades four_bars (Position (columns four_bars 2 4)) = Ok trades /\
     length trades = length (entries four_bars (Position (columns four_bars 2 4)))) /\
  (forall position,
     entries four_bars position = [] -> exits four_bars position = [] ->
     extract_trades four_bars position = Ok []).
Proof.
  apply (extract_trades_never_fails four_bars 2 4 (columns four_bars 2 4)).
  - unfold four_bars, daily_bars, index. cbn.
    repeat constructor; cbn; intuition discriminate.
  - apply compute_signals_ok; lia.
Defined.

(** The worked ten-bar scenario with windows 2 and 4: two entries, one
    exit, and the open position closed on the last day (day 9). *)
Example ten_bars_signal :
  Signal (columns ten_bars 2 4) = [0; 1; 0; 1; 1; 1; 1; 1; 1; 1]%Z.
Proof. vm_compute. reflexivity. Qed.

Example ten_bars_entries_exits :
  entries ten_bars (Position (columns ten_bars 2 4)) = [2; 4]%Z /\
  exits ten_bars (Position (columns ten_bars 2 4)) = [3]%Z.
Proof. split; vm_compute; reflexivity. Qed.

Example ten_bars_trades :
  match extract_trades ten_bars (Position (columns ten_bars 2 4)) with
  | Ok trades => map (fun t => (Entry t, Exit t)) trades
  | Err _ => []
  end = [(2, 3); (4, 9)]%Z.
Proof. vm_compute. reflexivity. Qed.

(** ** When the backtest raises *)

Lemma strategy_return_length (data : list row) (short long : Z) :
  length (Strategy_Return (columns data short long)) = length data.
Proof.
  unfold columns. cbn [Strategy_Return].
  rewrite col_mul_length; rewrite pct_change_length; unfold closes;
    rewrite length_map; [reflexivity|].
  fold (closes data). now rewrite shift1_length, signal_length.
Qed.

Lemma return_length (data : list row) (short long : Z) :
  length (Return (columns data short long)) = length data.
Proof.
  unfold columns. cbn [Return]. rewrite pct_change_length.
  unfold closes. apply length_map.
Qed.

Lemma portfolio_value_length (s : signals) (cash : Qc) :
  length (Portfolio_Value s cash) = length (Strategy_Return s).
Proof.
  unfold Portfolio_Value, cumprod, one_plus.
  now rewrite length_map, cumprod_from_length, length_map.
Qed.

Lemma buy_hold_value_length (s : signals) (cash : Qc) :
  length (Buy_Hold_Value s cash) = length (Return s).
Proof.
  unfold Buy_Hold_Value, cumprod, one_plus.
  now rewrite length_map, cumprod_from_length, length_map.
Qed.

Lemma last_values (data : list row) (short long : Z) (cash : Qc) :
  data <> [] ->
  exists pv_last bh_last,
    iloc_last (Portfolio_Value (columns data short long) cash) = Ok pv_last /\
    iloc_last (Buy_Hold_Value (columns data short long) cash) = Ok bh_last.
Proof.
  intros Hne.
  assert (Hl : length data <> 0%nat) by (destruct data; [congruence|discriminate]).
  destruct (iloc_last_nonempty (Portfolio_Value (columns data short long) cash))
    as [pv Hpv].
  { intros E. apply (f_equal (@length _)) in E.
    rewrite portfolio_value_length, strategy_return_length in E. contradiction. }
  destruct (iloc_last_nonempty (Buy_Hold_Value (columns data short long) cash))
    as [bh Hbh].
  { intros E. apply (f_equal (@length _)) in E.
    rewrite buy_hold_value_length, return_length in E. contradiction. }
  eauto.
Qed.

Section Failures.

Variable sqrt : Qc -> Qc.

Lemma app_backtest_ok (data : list row) (short long : Z) (cash : Qc) :
  (0 < short)%Z -> (0 < long)%Z -> data <> [] ->
  exists r,
    app_ema_crossover_backtest sqrt data short long cash = Ok r /\
    app_data r = columns data short long /\
    app_sharpe_ratio r
    = sharpe_ratio sqrt (Strategy_Return (columns data short long)).
Proof.
  intros Hs Hl Hne. unfold app_ema_crossover_backtest.
  rewrite compute_signals_ok by assumption. cbn [bind].
  destruct (last_values data short long cash Hne) as (pv & bh & -> & ->).
  cbn [bind]. eexists. split; [reflexivity|]. split; reflexivity.
Qed.

Lemma main_backtest_ok (data : list row) (short long : Z) (cash : Qc) :
  (0 < short)%Z -> (0 < long)%Z -> data <> [] -> NoDup (index data) ->
  exists r,
    main_ema_crossover_backtest sqrt data short long cash = Ok r /\
    main_data r = columns data short long /\
    main_sharpe_ratio r
    = sharpe_ratio sqrt (Strategy_Return (columns data short long)).
Proof.
  intros Hs Hl Hne Hnd. unfold main_ema_crossover_backtest.
  pose proof (compute_signals_ok data short long Hs Hl) as Hc.
  rewrite Hc. cbn [bind].
  destruct (derived_trades_ok data short long Hnd) as (trades & -> & _).
  cbn [bind].
  destruct (last_values data short long cash Hne) as (pv & bh & -> & ->).
  cbn [bind]. eexists. split; [reflexivity|]. split; reflexivity.
Qed.

Lemma backtest_empty (short long : Z) (cash : Qc) :
  (0 < short)%Z -> (0 < long)%Z ->
  app_ema_crossover_backtest sqrt [] short long cash = Err IndexError /\
  main_ema_crossover_backtest sqrt [] short long cash = Err IndexError.
Proof.
  intros Hs Hl.
  unfold app_ema_crossover_backtest, main_ema_crossover_backtest.
  rewrite compute_signals_ok by assumption. split; reflexivity.
Qed.

Lemma backtest_bad_window (data : list row) (short long : Z) (cash : Qc) :
  (short <= 0)%Z \/ (long <= 0)%Z ->
  app_ema_crossover_backtest sqrt data short long cash = Err ValueError /\
  main_ema_crossover_backtest sqrt data short long cash = Err ValueError.
Proof.
  intros H.
  unfold app_ema_crossover_backtest, main_ema_crossover_backtest.
  rewrite compute_signals_err by assumption. split; reflexivity.
Qed.

End Failures.




(** ** Sharpe ratio without deviation *)

Lemma Qc_of_Qeq (x y : Qc) : (this x == this y)%Q -> x = y.
Proof. apply Qc_is_canon. Qed.

Lemma Qc_sum_zero (a q : Qc) : 0 <= a -> 0 <= q -> a + q = 0 -> a = 0 /\ q = 0.
Proof.
  intros Ha Hq E.
  assert (E' : (this (a + q) == 0)%Q) by (rewrite E; reflexivity).
  qc2q. split; apply Qc_of_Qeq; change (this 0) with 0%Q; lra.
Qed.

Lemma Qc_square_nonneg (q : Qc) : 0 <= q * q.
Proof. qc2q. generalize (this q). intros x. nra. Qed.

Lemma Qc_square_zero (q : Qc) : q * q = 0 -> q = 0.
Proof. intros E. destruct (Qcmult_integral _ _ E); assumption. Qed.

Lemma Qc_minus_zero (a b : Qc) : a - b = 0 -> a = b.
Proof.
  intros E. assert (H : a = (a - b) + b) by ring. rewrite H, E. ring.
Qed.

Lemma Qc_sum_nonneg_zero (qs : list Qc) :
  forall a, 0 <= a -> Forall (fun q => 0 <= q) qs ->
            fold_left Qcplus qs a = 0 -> a = 0 /\ Forall (fun q => q = 0) qs.
Proof.
  induction qs as [|q qs IH]; intros a Ha Hqs E; cbn in E.
  - split; [exact E|constructor].
  - inversion Hqs as [|? ? Hq Hqs']; subst.
    assert (Haq : 0 <= a + q) by (qc2q; lra).
    destruct (IH (a + q) Haq Hqs' E) as [E1 E2].
    destruct (Qc_sum_zero a q Ha Hq E1) as [-> ->].
    split; [reflexivity|]. constructor; [reflexivity|exact E2].
Qed.

Lemma fadd_fin_inv (x y : float64) (t : Qc) :
  fadd x y = Fin t -> exists a b, x = Fin a /\ y = Fin b /\ t = a + b.
Proof.
  destruct x as [a|s|], y as [b|s'|]; cbn; try discriminate.
  - intros [= <-]. eauto.
  - destruct (Bool.eqb s s'); discriminate.
Qed.

Lemma fsub_fin_inv (x y : float64) (t : Qc) :
  fsub x y = Fin t -> exists a b, x = Fin a /\ y = Fin b /\ t = a - b.
Proof.
  unfold fsub. intros H. apply fadd_fin_inv in H as (a & b & -> & Hy & ->).
  destruct y as [c|s|]; try discriminate. injection Hy as <-.
  exists a, c. repeat split.
Qed.

Lemma fmul_square_fin_inv (d : float64) :
  is_fin (fmul d d) = true -> exists q, d = Fin q.
Proof. destruct d as [q|s|]; cbn; try discriminate. eauto. Qed.

Lemma fold_fadd_fin (l : list float64) :
  forall acc t, fold_left fadd l acc = Fin t -> Forall (fun x => is_fin x = true) l.
Proof.
  induction l as [|x l IH]; intros acc t H; [constructor|].
  cbn in H. pose proof (IH _ _ H) as Hl.
  destruct (fold_left fadd l (fadd acc x)) eqn:E; try discriminate.
  assert (Hx : exists a', fadd acc x = Fin a').
  { clear -E. revert E. generalize (fadd acc x). induction l as [|y l IHl]; intros u E.
    - cbn in E. eauto.
    - cbn in E. destruct (IHl _ E) as [a' Ha'].
      apply fadd_fin_inv in Ha' as (a & b & -> & _). eauto. }
  destruct Hx as [a' Ha']. apply fadd_fin_inv in Ha' as (a & b & _ & -> & _).
  constructor; [reflexivity|exact Hl].
Qed.

Lemma fold_fadd_fins (qs : list Qc) :
  forall a, fold_left fadd (map Fin qs) (Fin a) = Fin (fold_left Qcplus qs a).
Proof.
  induction qs as [|q qs IH]; intros a; [reflexivity|]. cbn. apply IH.
Qed.

Lemma all_fin_map (l : list float64) :
  Forall (fun x => is_fin x = true) l -> exists qs, l = map Fin qs.
Proof.
  induction 1 as [|x l Hx _ [qs ->]]; [exists []; reflexivity|].
  destruct x as [q| |]; try discriminate. exists (q :: qs). reflexivity.
Qed.

Lemma fdiv_fin_inv (x : float64) (d r : Qc) :
  d <> 0 -> fdiv x (Fin d) = Fin r -> exists t, x = Fin t /\ r = t / d.
Proof.
  intros Hd. destruct x as [t|s|]; cbn; try discriminate.
  destruct (d ?= 0) eqn:E.
  - apply Qceq_alt in E. contradiction.
  - intros [= <-]. eauto.
  - intros [= <-]. eauto.
Qed.

Lemma Qc_div_zero (t d : Qc) : d <> 0 -> t / d = 0 -> t = 0.
Proof.
  intros Hd E. assert (H : t = (t / d) * d) by (field; exact Hd).
  rewrite H, E. ring.
Qed.

(** A zero sample variance: at least two values, all finite and all equal
    to their mean. *)
Lemma nanvar_zero (xs : list float64) :
  nanvar xs = Fin 0 ->
  exists a, nanmean xs = Fin a /\
            Forall (fun x => x = Fin a) (dropna_values xs).
Proof.
  unfold nanvar, nanmean.
  destruct (count xs <=? 1)%Z eqn:Ec; [discriminate|]. apply Z.leb_gt in Ec.
  rewrite (proj2 (Z.ltb_lt 0 (count xs))) by lia.
  set (vals := dropna_values xs) in *.
  set (avg := fdiv (fsum vals) (Fin (of_Z (count xs)))).
  intros H.
  apply fdiv_fin_inv in H as (t & Hsum & Ht); [|apply of_Z_neq_0; lia].
  symmetry in Ht. apply Qc_div_zero in Ht; [|apply of_Z_neq_0; lia]. subst t.
  pose proof (fold_fadd_fin _ _ _ Hsum) as Hfin. rewrite Forall_map in Hfin.
  assert (Hne : vals <> []).
  { intros E. unfold count in Ec. fold vals in Ec. rewrite E in Ec. cbn in Ec. lia. }
  assert (Hall : forall x, In x vals ->
                   exists a b, avg = Fin a /\ x = Fin b).
  { intros x Hx. rewrite Forall_forall in Hfin. specialize (Hfin x Hx).
    cbv zeta in Hfin. apply fmul_square_fin_inv in Hfin as [q Hq].
    apply fsub_fin_inv in Hq as (a & b & Ha & Hb & _). eauto. }
  assert (Havg : exists a, avg = Fin a).
  { destruct vals as [|x0 vals']; [congruence|].
    destruct (Hall x0 (or_introl eq_refl)) as (a & _ & Ha & _). eauto. }
  destruct Havg as [a Ha]. exists a. split; [exact Ha|].
  assert (Hqs : exists qs, vals = map Fin qs).
  { apply all_fin_map. rewrite Forall_forall. intros x Hx.
    destruct (Hall x Hx) as (_ & b & _ & ->). reflexivity. }
  destruct Hqs as [qs Hqs]. rewrite Hqs in Hsum |- *. rewrite Ha in Hsum.
  rewrite map_map in Hsum. cbn [fsub fneg fadd fmul] in Hsum.
  rewrite <- (map_map (fun b => (a + - b) * (a + - b)) Fin) in Hsum.
  unfold fsum in Hsum. rewrite fold_fadd_fins in Hsum. injection Hsum as Hsum.
  apply Qc_sum_nonneg_zero in Hsum as [_ Hz].
  - rewrite Forall_map in Hz |- *. revert Hz. apply Forall_impl.
    intros b Hb. apply Qc_square_zero in Hb. f_equal. symmetry.
    apply Qc_minus_zero. exact Hb.
  - apply Qcle_refl.
  - rewrite Forall_map. rewrite Forall_forall. intros b _. apply Qc_square_nonneg.
Qed.

Lemma fdiv_by_zero_not_fin (m : float64) : is_fin (fdiv m (Fin 0)) = false.
Proof.
  destruct m as [a|s|]; cbn; try reflexivity.
  destruct (a ?= 0); reflexivity.
Qed.

Lemma fmul_not_fin_l (x y : float64) :
  is_fin x = false -> is_fin (fmul x y) = false.
Proof.
  destruct x as [a|s|], y as [b|t|]; cbn; try discriminate; try reflexivity.
  destruct (b ?= 0); reflexivity.
Qed.

Lemma np_sqrt_zero_inv (sqrt : Qc -> Qc) (v : float64) :
  (forall x, 0 <= x -> sqrt x = 0 -> x = 0) ->
  np_sqrt sqrt v = Fin 0 -> v = Fin 0.
Proof.
  intros Hsqrt. destruct v as [a|[|]|]; cbn; try discriminate.
  unfold is_negative. destruct (a ?= 0) eqn:E; try discriminate.
  - apply Qceq_alt in E. now subst.
  - intros [= H]. f_equal. apply Hsqrt; [|exact H].
    apply Qcgt_alt in E. apply Qclt_le_weak. exact E.
Qed.

Lemma sqrt_up_zero (x : Qc) : 0 <= x -> sqrt_up x = 0 -> x = 0.
Proof.
  intros Hx E. unfold sqrt_up in E.
  change 0 with (Q2Qc 0) in E. apply Q2Qc_eq_iff in E.
  unfold Qeq in E. cbn [Qnum Qden] in E. rewrite Z.mul_0_l, Z.mul_1_r in E.
  assert (Hn : (0 <= Qnum x)%Z).
  { unfold Qcle, Qle in Hx. cbn in Hx. lia. }
  assert (Hz : ~ (0 < Qnum x * Z.pos (Qden x) * 1000000000000)%Z).
  { intros Hp. apply Z.sqrt_up_pos in Hp. lia. }
  assert (E0 : Qnum x = 0%Z) by nia.
  apply Qc_of_Qeq. unfold Qeq. rewrite E0. reflexivity.
Qed.

Lemma feq_eq (x y : float64) : feq x y = true -> x = y.
Proof.
  destruct x as [a|s|], y as [b|t|]; cbn; try discriminate.
  - destruct (a ?= b) eqn:E; try discriminate.
    apply Qceq_alt in E. now subst.
  - intros H. apply eqb_prop in H. now subst.
Qed.

Lemma sharpe_not_finite (sqrt : Qc -> Qc) (sr : list float64) :
  nanstd sqrt sr = Fin 0 \/ nanstd sqrt sr = NaN ->
  is_fin (sharpe_ratio sqrt sr) = false.
Proof.
  intros H. unfold sharpe_ratio. apply fmul_not_fin_l.
  destruct H as [-> | ->]; [apply fdiv_by_zero_not_fin|].
  destruct (nanmean sr); reflexivity.
Qed.

Lemma sharpe_nan (sqrt : Qc -> Qc) (sr : list float64) :
  (forall x, 0 <= x -> sqrt x = 0 -> x = 0) ->
  (nanvar sr = Fin 0 -> In (Fin 0) (dropna_values sr)) ->
  nanstd sqrt sr = Fin 0 \/ nanstd sqrt sr = NaN ->
  sharpe_ratio sqrt sr = NaN.
Proof.
  intros Hsqrt Hzero H. unfold sharpe_ratio. destruct H as [H|H].
  - rewrite H. apply (np_sqrt_zero_inv sqrt _ Hsqrt) in H.
    destruct (nanvar_zero sr H) as (a & Hm & Hall).
    rewrite Forall_forall in Hall. specialize (Hall _ (Hzero H)).
    injection Hall as <-. rewrite Hm. reflexivity.
  - rewrite H. destruct (nanmean sr); reflexivity.
Qed.

Lemma count_le_length (xs : list float64) : (count xs <= Z.of_nat (length xs))%Z.
Proof.
  unfold count, dropna_values. pose proof (filter_length_le (fun x => negb (isna x)) xs).
  lia.
Qed.

(** The second strategy return is 0 whenever the first close is not. *)
Lemma second_strategy_return (data : list row) (short long : Z) :
  nth_error (closes data) 0 <> Some 0 ->
  nanvar (Strategy_Return (columns data short long)) = Fin 0 ->
  In (Fin 0) (dropna_values (Strategy_Return (columns data short long))).
Proof.
  intros Hc Hv.
  assert (Hlen : (2 <= length data)%nat).
  { destruct (le_lt_dec 2 (length data)) as [H|H]; [exact H|]. exfalso.
    pose proof (count_le_length (Strategy_Return (columns data short long))) as Hcnt.
    rewrite strategy_return_length in Hcnt.
    unfold nanvar in Hv.
    rewrite (proj2 (Z.leb_le _ 1)) in Hv by lia. discriminate. }
  destruct (returns_finite_at data (alpha_of short) (alpha_of long) 0)
    as (q & z & _ & Hz & _ & Hsr); [|lia|].
  { intros prev Hp E. subst prev. contradiction. }
  rewrite signal_head in Hz.
  2:{ destruct data; [cbn in Hlen; lia|discriminate]. }
  injection Hz as <-.
  apply filter_In. split.
  - apply nth_error_In with (n := 1%nat). unfold columns. cbn [Strategy_Return].
    rewrite Hsr. f_equal. f_equal. apply Qcmult_0_r.
  - reflexivity.
Qed.

(** C6, as the code has it.  Take a square root that vanishes only at 0,
    positive windows and a non-empty table, and let the standard deviation
    of the strategy returns be 0 or undefined.  Then the backtest returns
    (no exception) and its Sharpe ratio is not a finite number, so never 0;
    it is [NaN] as soon as the first close is not 0. *)
Theorem sharpe_is_undefined_without_deviation
    (sqrt : Qc -> Qc) (data : list row) (short long : Z) (cash : Qc) :
  (forall x, 0 <= x -> sqrt x = 0 -> x = 0) ->
  (0 < short)%Z -> (0 < long)%Z -> data <> [] ->
  nanstd sqrt (Strategy_Return (columns data short long)) = Fin 0 \/
  nanstd sqrt (Strategy_Return (columns data short long)) = NaN ->
  exists r,
    app_ema_crossover_backtest sqrt data short long cash = Ok r /\
    app_data r = columns data short long /\
    (NoDup (index data) ->
     exists r', main_ema_crossover_backtest sqrt data short long cash = Ok r' /\
                main_data r' = columns data short long /\
                main_sharpe_ratio r' = app_sharpe_ratio r) /\
    is_fin (app_sharpe_ratio r) = false /\
    app_sharpe_ratio r <> Fin 0 /\
    (nth_error (closes data) 0 <> Some 0 -> app_sharpe_ratio r = NaN).
Proof.
  intros Hsqrt Hs Hl Hne Hstd.
  destruct (app_backtest_ok sqrt data short long cash Hs Hl Hne) as (r & Hr & Hd & Hsr).
  exists r. split; [exact Hr|]. split; [exact Hd|]. split.
  - intros Hnd.
    destruct (main_backtest_ok sqrt data short long cash Hs Hl Hne Hnd)
      as (r' & Hr' & Hd' & Hsr').
    exists r'. split; [exact Hr'|]. split; [exact Hd'|]. congruence.
  - rewrite Hsr.
    pose proof (sharpe_not_finite sqrt _ Hstd) as Hnf.
    split; [exact Hnf|]. split.
    + intros E. rewrite E in Hnf. discriminate.
    + intros Hc. apply sharpe_nan; [exact Hsqrt| |exact Hstd].
      apply second_strategy_return. exact Hc.
Qed.

Lemma sharpe_is_undefined_without_deviation_witness :
  exists r,
    app_ema_crossover_backtest sqrt_up flat_bars 12 26 (of_Z 10000) = Ok r /\
    app_data r = columns flat_bars 12 26 /\
    (NoDup (index flat_bars) ->
     exists r', main_ema_crossover_backtest sqrt_up flat_bars 12 26 (of_Z 10000) = Ok r' /\
                main_data r' = columns flat_bars 12 26 /\
                main_sharpe_ratio r' = app_sharpe_ratio r) /\
    is_fin (app_sharpe_ratio r) = false /\
    app_sharpe_ratio r <> Fin 0 /\
    (nth_error (closes flat_bars) 0 <> Some 0 -> app_sharpe_ratio r = NaN).
Proof.
  apply (sharpe_is_undefined_without_deviation sqrt_up flat_bars 12 26 (of_Z 10000));
    [exact sqrt_up_zero | lia | lia | discriminate |].
  left. apply feq_eq. vm_compute. reflexivity.
Defined.

Lemma feq_list_eq (xs ys : list float64) : feq_list xs ys = true -> xs = ys.
Proof.
  revert ys. induction xs as [|x xs IH]; intros [|y ys]; cbn; try discriminate.
  - reflexivity.
  - intros H. apply andb_prop in H as [Hx Hr].
    apply feq_eq in Hx. apply IH in Hr. congruence.
Qed.

(** C6 as stated fails.  On the closes 0, 1, 2, 4 with the windows 12 and
    26 the defined strategy returns are 1 and 1: their standard deviation
    is 0, their mean is 1, and the Sharpe ratio is [+inf], not [NaN]. *)
Lemma sharpe_is_infinite_after_a_zero_close :
  exists r,
    app_ema_crossover_backtest sqrt_up bars_from_zero 12 26 (of_Z 10000) = Ok r /\
    dropna_values (Strategy_Return (app_data r)) = [Fin 1; Fin 1] /\
    nanstd sqrt_up (Strategy_Return (app_data r)) = Fin 0 /\
    app_sharpe_ratio r = Inf false /\
    app_sharpe_ratio r <> NaN.
Proof.
  destruct (app_backtest_ok sqrt_up bars_from_zero 12 26 (of_Z 10000))
    as (r & Hr & Hd & Hsr); [lia|lia|discriminate|].
  exists r. split; [exact Hr|]. rewrite Hd, Hsr.
  assert (E : sharpe_ratio sqrt_up (Strategy_Return (columns bars_from_zero 12 26))
              = Inf false) by (vm_compute; reflexivity).
  split; [|split; [|split]].
  - apply feq_list_eq. vm_compute. reflexivity.
  - apply feq_eq. vm_compute. reflexivity.
  - exact E.
  - rewrite E. discriminate.
Qed.

(** ** The grid search *)

Lemma fgt_fin (a b : Qc) : fgt (Fin a) (Fin b) = Qcgtb a b.
Proof. reflexivity. Qed.

Lemma fgt_irrefl (x : float64) : fgt x x = false.
Proof.
  destruct x as [a|s|]; cbn; [|destruct s; reflexivity|reflexivity].
  change (Qcgtb a a = false). apply Qcgtb_irrefl.
Qed.

Lemma fgt_trans (x y z : float64) :
  fgt x y = true -> fgt y z = true -> fgt x z = true.
Proof.
  destruct x as [a|s|], y as [b|t|], z as [c|u|];
    try (rewrite !fgt_fin, !Qcgtb_true; intros H1 H2; eapply Qclt_trans; eassumption);
    cbn;
    repeat match goal with
           | v : bool |- _ => destruct v
           end;
    cbn; intros; congruence.
Qed.

Section FirstMaximum.

Context {A : Type} (value : A -> float64).

Lemma keep_greater_first_maximum (cands : list A) :
  forall (b0 : float64) (p0 : A),
    let b := fold_left (keep_greater value) cands (b0, p0) in
    (b = (b0, p0) /\ forall q, In q cands -> fgt (value q) b0 = false) \/
    (exists pre post,
        cands = pre ++ snd b :: post /\
        fst b = value (snd b) /\
        fgt (value (snd b)) b0 = true /\
        (forall q, In q pre ->
                   fgt (value q) (value (snd b)) = false /\ value q <> value (snd b)) /\
        (forall q, In q post -> fgt (value q) (value (snd b)) = false)).
Proof.
  induction cands as [|c rest IH]; intros b0 p0 b.
  - left. split; [reflexivity|]. intros q [].
  - subst b.
    change (fold_left (keep_greater value) (c :: rest) (b0, p0))
      with (fold_left (keep_greater value) rest (keep_greater value (b0, p0) c)).
    assert (Hk : keep_greater value (b0, p0) c
                 = if fgt (value c) b0 then (value c, c) else (b0, p0))
      by reflexivity.
    rewrite Hk. clear Hk.
    destruct (fgt (value c) b0) eqn:Ec.
    + pose proof (IH (value c) c) as H. cbv zeta in H.
      remember (fold_left (keep_greater value) rest (value c, c)) as b eqn:Eb. clear Eb.
      destruct H as [[Hb Hall]|(pre & post & Hc & Hv & Hgt & Hpre & Hpost)].
      * right. subst b. cbn [fst snd]. exists [], rest.
        split; [reflexivity|]. split; [reflexivity|]. split; [exact Ec|].
        split; [intros q []|exact Hall].
      * right. exists (c :: pre), post. rewrite Hc at 1.
        split; [reflexivity|]. split; [exact Hv|].
        split; [eapply fgt_trans; eauto|]. split; [|exact Hpost].
        intros q [<-|Hq]; [|auto]. split.
        -- destruct (fgt (value c) (value (snd b))) eqn:E; [|reflexivity].
           pose proof (fgt_trans _ _ _ E Hgt) as F. rewrite fgt_irrefl in F.
           discriminate.
        -- intros E. rewrite <- E, fgt_irrefl in Hgt. discriminate.
    + pose proof (IH b0 p0) as H. cbv zeta in H.
      remember (fold_left (keep_greater value) rest (b0, p0)) as b eqn:Eb. clear Eb.
      destruct H as [[Hb Hall]|(pre & post & Hc & Hv & Hgt & Hpre & Hpost)].
      * left. split; [exact Hb|]. intros q [<-|Hq]; auto.
      * right. exists (c :: pre), post. rewrite Hc at 1.
        split; [reflexivity|]. split; [exact Hv|]. split; [exact Hgt|].
        split; [|exact Hpost].
        intros q [<-|Hq]; [|auto]. split.
        -- destruct (fgt (value c) (value (snd b))) eqn:E; [|reflexivity].
           pose proof (fgt_trans _ _ _ E Hgt) as F. congruence.
        -- intros E. rewrite <- E in Hgt. congruence.
Qed.

End FirstMaximum.

Lemma total_return_ok (data : list row) (short long : Z) :
  (0 < short)%Z -> (0 < long)%Z ->
  total_return data short long = Ok (total_return_of data (short, long)).
Proof.
  intros Hs Hl. unfold total_return. rewrite compute_signals_ok by assumption.
  reflexivity.
Qed.

Lemma optimize_body_step (data : list row) (short long : Z) (b : best) :
  (0 < short)%Z -> (0 < long)%Z ->
  optimize_body data short long b
  = Ok (if (short <? long)%Z
        then keep_greater (total_return_of data) b (short, long)
        else b).
Proof.
  intros Hs Hl. unfold optimize_body.
  rewrite Z.geb_leb, Z.leb_antisym.
  destruct (short <? long)%Z; cbn [negb]; [|reflexivity].
  rewrite total_return_ok by assumption. cbn [bind].
  unfold keep_greater. destruct (fgt _ _); reflexivity.
Qed.

Lemma inner_loop (data : list row) (short : Z) (longs : list Z) :
  (0 < short)%Z -> Forall (fun l => (0 < l)%Z) longs ->
  forall b,
    for_each longs (optimize_body data short) b
    = Ok (fold_left (keep_greater (total_return_of data))
            (filter (fun p => (fst p <? snd p)%Z) (map (fun l => (short, l)) longs))
            b).
Proof.
  intros Hs Hl. induction Hl as [|l longs Hl0 _ IH]; intros b; [reflexivity|].
  cbn [for_each map filter fst snd].
  rewrite optimize_body_step by assumption. cbn [bind]. rewrite IH.
  destruct (short <? l)%Z; reflexivity.
Qed.

Lemma outer_loop (data : list row) (shorts longs : list Z) :
  Forall (fun s => (0 < s)%Z) shorts -> Forall (fun l => (0 < l)%Z) longs ->
  forall b,
    for_each shorts (fun short => for_each longs (optimize_body data short)) b
    = Ok (fold_left (keep_greater (total_return_of data))
            (filter (fun p => (fst p <? snd p)%Z) (list_prod shorts longs))
            b).
Proof.
  intros Hs Hl. induction Hs as [|s shorts Hs0 _ IH]; intros b; [reflexivity|].
  cbn [for_each list_prod]. rewrite inner_loop by assumption. cbn [bind].
  rewrite IH, filter_app, fold_left_app. reflexivity.
Qed.

Lemma optimize_ema_fold (data : list row) :
  optimize_ema data
  = Ok (snd (fold_left (keep_greater (total_return_of data)) candidates
               (Inf true, (0%Z, 0%Z)))).
Proof.
  unfold optimize_ema. rewrite outer_loop; [reflexivity| |].
  - vm_compute. repeat constructor.
  - vm_compute. repeat constructor.
Qed.

Lemma nanprod_finite (xs : list float64) :
  Forall (fun x => x = NaN \/ is_fin x = true) xs ->
  exists v, nanprod xs = Fin v.
Proof.
  unfold nanprod. generalize 1. induction xs as [|x xs IH]; intros acc H.
  - cbn. eauto.
  - inversion H as [|? ? Hx Hxs]; subst. cbn [dropna_values filter].
    destruct x as [a| |]; cbn [isna negb fold_left].
    + apply (IH (acc * a) Hxs).
    + destruct Hx; discriminate.
    + apply (IH acc Hxs).
Qed.

Lemma total_return_finite (data : list row) (p : Z * Z) :
  Forall (fun r => Close r <> 0) data ->
  exists v, total_return_of data p = Fin v.
Proof.
  intros Hnz. unfold total_return_of.
  destruct (nanprod_finite (one_plus (Strategy_Return (columns data (fst p) (snd p)))))
    as [v Hv].
  - unfold one_plus. rewrite Forall_map, Forall_forall. intros x Hx.
    apply In_nth_error in Hx as [n Hn]. unfold columns in Hn. cbn [Strategy_Return] in Hn.
    assert (Hlt : (n < length data)%nat).
    { pose proof (strategy_return_length data (fst p) (snd p)) as Hlen.
      unfold columns in Hlen. cbn [Strategy_Return] in Hlen. rewrite <- Hlen.
      apply nth_error_Some. congruence. }
    destruct n as [|k].
    + left. rewrite (col_mul_nth _ _ 0 NaN NaN) in Hn.
      * injection Hn as <-. reflexivity.
      * apply pct_change_head. destruct data; [cbn in Hlt; lia|discriminate].
      * apply shift1_head. intros E.
        pose proof (signal_length data (alpha_of (fst p)) (alpha_of (snd p))) as Hl.
        rewrite E in Hl. cbn in Hl. lia.
    + right.
      destruct (returns_finite data (alpha_of (fst p)) (alpha_of (snd p)) k Hnz Hlt)
        as (q & z & _ & _ & _ & E).
      rewrite E in Hn. injection Hn as <-. reflexivity.
  - rewrite Hv. cbn. eauto.
Qed.

Lemma candidates_positive (p : Z * Z) :
  In p candidates -> (0 < fst p)%Z /\ (0 < snd p)%Z.
Proof.
  assert (H : Forall (fun p => (0 < fst p)%Z /\ (0 < snd p)%Z) candidates)
    by (vm_compute; repeat constructor).
  rewrite Forall_forall in H. apply H.
Qed.



(** On rising prices every pair earns the same (the position is taken on
    the third bar whatever the windows), and the first pair is kept. *)
Example optimize_rising_bars : optimize_ema rising_bars = Ok (5, 20)%Z.
Proof. vm_compute. reflexivity. Qed.

(** With a close of 0 every total return can be [NaN]; none of them is
    greater than [-inf] and the starting pair comes back. *)
Example optimize_through_a_zero_close :
  optimize_ema (daily_bars [1; 100; 0; 5]%Z) = Ok (0, 0)%Z.
Proof. vm_compute. reflexivity. Qed.

(** * Further properties *)

(** ** What a successful run has computed *)

Lemma compute_signals_inv (data : list row) (short long : Z) (s : signals) :
  compute_signals data short long = Ok s ->
  (0 < short)%Z /\ (0 < long)%Z /\ s = columns data short long.
Proof.
  intros H.
  destruct (Z_lt_le_dec 0 short) as [Hs|Hs];
    [|rewrite compute_signals_err in H by lia; discriminate].
  destruct (Z_lt_le_dec 0 long) as [Hl|Hl];
    [|rewrite compute_signals_err in H by lia; discriminate].
  rewrite compute_signals_ok in H by assumption. injection H as <-. auto.
Qed.

Lemma of_Z_1 : of_Z 1 = 1.
Proof. apply Qc_is_canon. reflexivity. Qed.

(** X1. In a successful run, at every row after a bar whose close is not 0,
    the strategy return is the raw return when the signal of the previous
    bar is 1, and 0 when it is 0. *)
Theorem strategy_return_follows_previous_signal
    (data : list row) (short long : Z) (s : signals) (k : nat) (prev : Qc) :
  compute_signals data short long = Ok s ->
  (S k < length data)%nat ->
  nth_error (closes data) k = Some prev -> prev <> 0 ->
  (nth_error (Signal s) k = Some 1%Z /\
   exists q, nth_error (Return s) (S k) = Some (Fin q) /\
             nth_error (Strategy_Return s) (S k) = Some (Fin q)) \/
  (nth_error (Signal s) k = Some 0%Z /\
   nth_error (Strategy_Return s) (S k) = Some (Fin 0)).
Proof.
  intros Hs Hk Hp Hnz. apply compute_signals_inv in Hs as (_ & _ & ->).
  destruct (returns_finite_at data (alpha_of short) (alpha_of long) k)
    as (q & z & Hr & Hz & Hz01 & Hsr); [|exact Hk|].
  { intros p Ep. congruence. }
  unfold columns. cbn [Signal Return Strategy_Return].
  destruct Hz01 as [-> | ->].
  - right. split; [exact Hz|]. rewrite Hsr. do 2 f_equal. apply Qcmult_0_r.
  - left. split; [exact Hz|]. exists q. split; [exact Hr|].
    rewrite Hsr, of_Z_1. do 2 f_equal. apply Qcmult_1_r.
Qed.

Lemma strategy_return_follows_previous_signal_witness :
  (nth_error (Signal (columns four_bars 2 4)) 1 = Some 1%Z /\
   exists q, nth_error (Return (columns four_bars 2 4)) 2 = Some (Fin q) /\
             nth_error (Strategy_Return (columns four_bars 2 4)) 2 = Some (Fin q)) \/
  (nth_error (Signal (columns four_bars 2 4)) 1 = Some 0%Z /\
   nth_error (Strategy_Return (columns four_bars 2 4)) 2 = Some (Fin 0)).
Proof.
  apply (strategy_return_follows_previous_signal
           four_bars 2 4 (columns four_bars 2 4) 1 (of_Z 11)).
  - apply compute_signals_ok; lia.
  - vm_compute. lia.
  - reflexivity.
  - discriminate.
Defined.

(** ** Running products over finite returns *)

Lemma firstn_succ_snoc {A} (l : list A) :
  forall (i : nat) (x : A),
    nth_error l i = Some x -> firstn (S i) l = firstn i l ++ [x].
Proof.
  induction l as [|a l IH]; intros i x H; [destruct i; discriminate|].
  destruct i as [|i]; cbn in H.
  - injection H as ->. reflexivity.
  - rewrite !firstn_cons, (IH i x H). reflexivity.
Qed.

Lemma prod_from_1_zero (r : list float64) : prod_from_1 r 0 = Fin 1.
Proof. reflexivity. Qed.

Lemma prod_from_1_succ (r : list float64) (i : nat) (x : float64) :
  nth_error r (S i) = Some x ->
  prod_from_1 r (S i) = fmul (prod_from_1 r i) (fadd (Fin 1) x).
Proof.
  intros H. unfold prod_from_1.
  destruct r as [|a r]; [discriminate|]. cbn [skipn nth_error] in *.
  rewrite (firstn_succ_snoc r i x H). unfold one_plus.
  rewrite map_app, fold_left_app. reflexivity.
Qed.

Lemma iloc_last_nth {A} (xs : list A) (x : A) :
  iloc_last xs = Ok x -> nth_error xs (length xs - 1) = Some x.
Proof.
  intros H. apply iloc_last_inv in H as [l' ->].
  rewrite length_app. cbn [length].
  replace (length l' + 1 - 1)%nat with (length l') by lia.
  rewrite nth_error_app2 by lia. now rewrite Nat.sub_diag.
Qed.

(** The close of a row and the facts about the row after it, when that
    close is not 0. *)
Lemma row_after (data : list row) (short long : Z) (k : nat) :
  Forall (fun r => Close r <> 0) data ->
  (S k < length data)%nat ->
  exists (prev cur : Qc) (z : Z),
    nth_error (closes data) k = Some prev /\ prev <> 0 /\
    nth_error (closes data) (S k) = Some cur /\ cur <> 0 /\
    nth_error (Signal (columns data short long)) k = Some z /\
    (z = 0 \/ z = 1)%Z /\
    nth_error (Return (columns data short long)) (S k)
    = Some (Fin (cur / prev - 1)) /\
    nth_error (Strategy_Return (columns data short long)) (S k)
    = Some (Fin ((cur / prev - 1) * of_Z z)).
Proof.
  intros Hnz Hk.
  assert (Hclose : forall i, (i < length data)%nat ->
                     exists c, nth_error (closes data) i = Some c /\ c <> 0).
  { intros i Hi. destruct (nth_error data i) as [r|] eqn:Er.
    - exists (Close r). unfold closes. rewrite nth_error_map, Er. split; [reflexivity|].
      rewrite Forall_forall in Hnz. apply Hnz. eapply nth_error_In; eauto.
    - apply nth_error_None in Er. lia. }
  destruct (Hclose k ltac:(lia)) as (prev & Ep & Hp).
  destruct (Hclose (S k) Hk) as (cur & Ec & Hc).
  destruct (returns_finite_at data (alpha_of short) (alpha_of long) k)
    as (q & z & Hr & Hz & Hz01 & Hsr); [intros p E; congruence|exact Hk|].
  assert (Hq : q = cur / prev - 1).
  { rewrite (pct_change_succ _ _ _ _ Ep Ec), fdiv_fin in Hr by exact Hp.
    cbn in Hr. injection Hr as <-. reflexivity. }
  subst q. exists prev, cur, z. unfold columns. cbn [Signal Return Strategy_Return].
  repeat split; assumption.
Qed.

Lemma strategy_return_head (data : list row) (short long : Z) :
  data <> [] ->
  nth_error (Strategy_Return (columns data short long)) 0 = Some NaN.
Proof.
  intros Hne. unfold columns. cbn [Strategy_Return].
  rewrite (col_mul_nth _ _ 0 NaN NaN); [reflexivity| |].
  - apply pct_change_head. destruct data; [congruence|discriminate].
  - apply shift1_head. intros E.
    pose proof (signal_length data (alpha_of short) (alpha_of long)) as Hl.
    rewrite E in Hl. destruct data; [congruence|discriminate].
Qed.

Lemma return_head (data : list row) (short long : Z) :
  data <> [] -> nth_error (Return (columns data short long)) 0 = Some NaN.
Proof.
  intros Hne. unfold columns. cbn [Return].
  apply pct_change_head. destruct data; [congruence|discriminate].
Qed.

(** With no zero close, the value columns from row 1 on are the running
    products times the cash. *)
Lemma portfolio_value_at (data : list row) (short long : Z) (cash : Qc) (i : nat) :
  Forall (fun r => Close r <> 0) data ->
  (1 <= i < length data)%nat ->
  nth_error (Portfolio_Value (columns data short long) cash) i
  = Some (fmul (prod_from_1 (Strategy_Return (columns data short long)) i) (Fin cash)).
Proof.
  intros Hnz Hi. unfold Portfolio_Value.
  rewrite nth_error_map, cumprod_one_plus; [reflexivity| | |].
  - apply strategy_return_head. intros ->. cbn in Hi. lia.
  - rewrite strategy_return_length. exact Hi.
  - intros k Hk. destruct k as [|k]; [lia|].
    destruct (row_after data short long k Hnz ltac:(lia))
      as (prev & cur & z & _ & _ & _ & _ & _ & _ & _ & E).
    rewrite E. discriminate.
Qed.

Lemma buy_hold_value_at (data : list row) (short long : Z) (cash : Qc) (i : nat) :
  Forall (fun r => Close r <> 0) data ->
  (1 <= i < length data)%nat ->
  nth_error (Buy_Hold_Value (columns data short long) cash) i
  = Some (fmul (prod_from_1 (Return (columns data short long)) i) (Fin cash)).
Proof.
  intros Hnz Hi. unfold Buy_Hold_Value.
  rewrite nth_error_map, cumprod_one_plus; [reflexivity| | |].
  - apply return_head. intros ->. cbn in Hi. lia.
  - rewrite return_length. exact Hi.
  - intros k Hk. destruct k as [|k]; [lia|].
    destruct (row_after data short long k Hnz ltac:(lia))
      as (prev & cur & z & _ & _ & _ & _ & _ & _ & E & _).
    rewrite E. discriminate.
Qed.

Lemma strategy_product_finite (data : list row) (short long : Z) (i : nat) :
  Forall (fun r => Close r <> 0) data ->
  (i < length data)%nat ->
  exists P, prod_from_1 (Strategy_Return (columns data short long)) i = Fin P.
Proof.
  intros Hnz. induction i as [|i IH]; intros Hi.
  - exists 1. reflexivity.
  - destruct IH as [P HP]; [lia|].
    destruct (row_after data short long i Hnz Hi)
      as (prev & cur & z & _ & _ & _ & _ & _ & _ & _ & E).
    rewrite (prod_from_1_succ _ _ _ E), HP. cbn. eauto.
Qed.

Lemma close_nonzero (data : list row) (i : nat) (c : Qc) :
  Forall (fun r => Close r <> 0) data ->
  nth_error (closes data) i = Some c -> c <> 0.
Proof.
  intros Hnz H. unfold closes in H. rewrite nth_error_map in H.
  destruct (nth_error data i) as [r|] eqn:Er; [|discriminate].
  injection H as <-. rewrite Forall_forall in Hnz. apply Hnz.
  eapply nth_error_In; eauto.
Qed.

(** The product of the raw returns telescopes. *)
Lemma return_product_telescopes (data : list row) (short long : Z) (first : Qc) (i : nat) :
  Forall (fun r => Close r <> 0) data ->
  nth_error (closes data) 0 = Some first ->
  (i < length data)%nat ->
  exists ci, nth_error (closes data) i = Some ci /\ ci <> 0 /\
             prod_from_1 (Return (columns data short long)) i = Fin (ci / first).
Proof.
  intros Hnz H0.
  pose proof (close_nonzero data 0 first Hnz H0) as Hf.
  induction i as [|i IH]; intros Hi.
  - exists first. split; [exact H0|]. split; [exact Hf|].
    rewrite prod_from_1_zero. f_equal. field. exact Hf.
  - destruct IH as (ci & Eci & Hci & HP); [lia|].
    destruct (row_after data short long i Hnz Hi)
      as (prev & cur & z & Ep & Hp & Ec & Hc & _ & _ & E & _).
    rewrite Eci in Ep. injection Ep as <-.
    exists cur. split; [exact Ec|]. split; [exact Hc|].
    rewrite (prod_from_1_succ _ _ _ E), HP. cbn. f_equal.
    field. auto.
Qed.

(** ** What the backtests report *)

Lemma app_backtest_fields (sqrt : Qc -> Qc) (data : list row) (short long : Z)
    (cash : Qc) (r : app_result) :
  app_ema_crossover_backtest sqrt data short long cash = Ok r ->
  exists pv_last bh_last,
    app_data r = columns data short long /\
    app_portfolio_value r = Portfolio_Value (columns data short long) cash /\
    app_buy_hold_value r = Buy_Hold_Value (columns data short long) cash /\
    iloc_last (Portfolio_Value (columns data short long) cash) = Ok pv_last /\
    iloc_last (Buy_Hold_Value (columns data short long) cash) = Ok bh_last /\
    app_total_return r = percent_gain pv_last cash /\
    app_buyhold_return r = percent_gain bh_last cash.
Proof.
  unfold app_ema_crossover_backtest. intros H.
  destruct (compute_signals data short long) as [s|e] eqn:Es; [|discriminate].
  apply compute_signals_inv in Es as (_ & _ & ->). cbn [bind] in H.
  destruct (iloc_last (Portfolio_Value (columns data short long) cash))
    as [pv|e] eqn:Epv; [|discriminate].
  destruct (iloc_last (Buy_Hold_Value (columns data short long) cash))
    as [bh|e] eqn:Ebh; [|discriminate].
  cbn [bind] in H. injection H as <-. exists pv, bh. cbn. repeat split.
Qed.

Lemma main_backtest_fields (sqrt : Qc -> Qc) (data : list row) (short long : Z)
    (cash : Qc) (r : main_result) :
  main_ema_crossover_backtest sqrt data short long cash = Ok r ->
  exists pv_last bh_last,
    main_data r = columns data short long /\
    main_portfolio_value r = Portfolio_Value (columns data short long) cash /\
    main_buy_hold_value r = Buy_Hold_Value (columns data short long) cash /\
    extract_trades data (Position (columns data short long)) = Ok (main_trades r) /\
    main_win_rate r = win_rate (main_trades r) /\
    main_avg_trade r = avg_trade (main_trades r) /\
    iloc_last (Portfolio_Value (columns data short long) cash) = Ok pv_last /\
    iloc_last (Buy_Hold_Value (columns data short long) cash) = Ok bh_last /\
    main_total_return r = percent_gain pv_last cash /\
    main_buyhold_return r = percent_gain bh_last cash.
Proof.
  unfold main_ema_crossover_backtest. intros H.
  destruct (compute_signals data short long) as [s|e] eqn:Es; [|discriminate].
  apply compute_signals_inv in Es as (_ & _ & ->). cbn [bind] in H.
  destruct (extract_trades data (Position (columns data short long)))
    as [trades|e] eqn:Et; [|discriminate].
  cbn [bind] in H.
  destruct (iloc_last (Portfolio_Value (columns data short long) cash))
    as [pv|e] eqn:Epv; [|discriminate].
  destruct (iloc_last (Buy_Hold_Value (columns data short long) cash))
    as [bh|e] eqn:Ebh; [|discriminate].
  cbn [bind] in H. injection H as <-. exists pv, bh. cbn. repeat split.
Qed.

(** Row 1 and the step from one row to the next of the portfolio value. *)
Lemma portfolio_value_steps (data : list row) (short long : Z) (cash : Qc) :
  Forall (fun r => Close r <> 0) data ->
  ((2 <= length data)%nat ->
   nth_error (Portfolio_Value (columns data short long) cash) 1 = Some (Fin cash)) /\
  (forall k, (S (S k) < length data)%nat ->
     exists v c c',
       nth_error (Portfolio_Value (columns data short long) cash) (S k) = Some (Fin v) /\
       nth_error (closes data) (S k) = Some c /\
       nth_error (closes data) (S (S k)) = Some c' /\
       ((nth_error (Signal (columns data short long)) (S k) = Some 0%Z /\
         nth_error (Portfolio_Value (columns data short long) cash) (S (S k))
         = Some (Fin v)) \/
        (nth_error (Signal (columns data short long)) (S k) = Some 1%Z /\
         nth_error (Portfolio_Value (columns data short long) cash) (S (S k))
         = Some (Fin (v * (c' / c)))))).
Proof.
  intros Hnz. split.
  - intros Hn. rewrite portfolio_value_at by (auto; lia).
    destruct (row_after data short long 0 Hnz ltac:(lia))
      as (prev & cur & z & _ & _ & _ & _ & Hz & _ & _ & E).
    unfold columns in Hz. cbn [Signal] in Hz. rewrite signal_head in Hz.
    2:{ destruct data; [cbn in Hn; lia|discriminate]. }
    injection Hz as <-.
    rewrite (prod_from_1_succ _ _ _ E), prod_from_1_zero. cbn.
    do 2 f_equal. change (of_Z 0) with 0. ring.
  - intros k Hk.
    destruct (strategy_product_finite data short long (S k) Hnz ltac:(lia)) as [P HP].
    destruct (row_after data short long (S k) Hnz Hk)
      as (c & c' & z & Ec & Hc & Ec' & _ & Hz & Hz01 & _ & E).
    exists (P * cash), c, c'.
    rewrite !portfolio_value_at by (auto; lia).
    rewrite (prod_from_1_succ _ _ _ E), HP. cbn.
    split; [reflexivity|]. split; [exact Ec|]. split; [exact Ec'|].
    destruct Hz01 as [-> | ->]; [left|right]; (split; [exact Hz|]); do 2 f_equal.
    + change (of_Z 0) with 0. ring.
    + rewrite of_Z_1. field. exact Hc.
Qed.



Lemma percent_gain_of_product (P cash : Qc) :
  cash <> 0 ->
  percent_gain (fmul (Fin P) (Fin cash)) cash = Fin ((P - 1) * of_Z 100).
Proof.
  intros Hc. unfold percent_gain. cbn [fmul]. rewrite fdiv_fin by exact Hc.
  cbn. f_equal. field. exact Hc.
Qed.



(** With its first row missing and all the others finite, the product of
    [1 + r] that [prod] computes is the running product at the last row. *)
Lemma nanprod_is_last_product (r : list float64) :
  nth_error r 0 = Some NaN ->
  (forall k, (1 <= k < length r)%nat -> exists q, nth_error r k = Some (Fin q)) ->
  nanprod (one_plus r) = prod_from_1 r (length r - 1).
Proof.
  intros H0 Hfin. destruct r as [|x r']; [discriminate|].
  injection H0 as ->. cbn [length]. replace (S (length r') - 1)%nat with (length r') by lia.
  unfold nanprod, prod_from_1. cbn [skipn one_plus map dropna_values filter fadd isna negb].
  rewrite firstn_all.
  assert (Hall : Forall (fun y => is_fin y = true) r').
  { rewrite Forall_forall. intros y Hy. apply In_nth_error in Hy as [n Hn].
    destruct (Hfin (S n)) as [q Hq].
    - cbn [length]. split; [lia|]. apply ->Nat.succ_lt_mono.
      apply nth_error_Some. congruence.
    - cbn in Hq. rewrite Hn in Hq. injection Hq as ->. reflexivity. }
  f_equal. clear Hfin. unfold one_plus.
  induction Hall as [|y l Hy _ IH]; [reflexivity|].
  cbn [map filter]. destruct y; try discriminate. cbn [fadd isna negb].
  f_equal. exact IH.
Qed.



(** ** Runs that never take a position *)

Lemma in_removelast {A} (l : list A) (x : A) : In x (removelast l) -> In x l.
Proof.
  induction l as [|a l IH]; [intros []|].
  destruct l as [|b l]; [intros []|].
  change (removelast (a :: b :: l)) with (a :: removelast (b :: l)).
  intros [->|H]; [now left|right; apply IH, H].
Qed.

Lemma shift1_elements (zs : list Z) (p : float64) :
  In p (shift1 zs) -> p = NaN \/ exists z, In z zs /\ p = Fin (of_Z z).
Proof.
  destruct zs as [|z0 zs]; [intros []|]. unfold shift1.
  intros [<-|H]; [now left|]. right.
  apply in_map_iff in H as (z & <- & Hz). exists z. split; [|reflexivity].
  apply in_removelast, Hz.
Qed.

Lemma diff_elements (xs : list float64) (t : float64) :
  In t (diff xs) -> t = NaN \/ exists x y, In x xs /\ In y xs /\ t = fsub y x.
Proof.
  destruct xs as [|x0 xs]; [intros []|]. unfold diff.
  intros [<-|H]; [now left|]. right.
  apply in_map_iff in H as ((x & y) & <- & Hp). exists x, y. cbn [fst snd].
  split; [eapply in_combine_l; eauto|]. split; [|reflexivity].
  right. eapply in_combine_r; eauto.
Qed.

Lemma col_mul_elements (xs ys : list float64) (t : float64) :
  In t (col_mul xs ys) -> exists x y, In y ys /\ t = fmul x y.
Proof.
  unfold col_mul. intros H. apply in_map_iff in H as ((x & y) & <- & Hp).
  exists x, y. split; [eapply in_combine_r; eauto|reflexivity].
Qed.

Lemma fmul_zero_r (x : float64) : fmul x (Fin 0) = NaN \/ fmul x (Fin 0) = Fin 0.
Proof.
  destruct x as [a|s|]; cbn; auto. right. f_equal. apply Qcmult_0_r.
Qed.

Lemma filter_none {A} (f : A -> bool) (l : list A) :
  (forall x, In x l -> f x = false) -> filter f l = [].
Proof.
  induction l as [|a l IH]; intros H; [reflexivity|].
  cbn. rewrite (H a) by now left. apply IH. intros x Hx. apply H. now right.
Qed.

Lemma index_where_none (data : list row) (col : list float64) (v : float64) :
  Forall (fun t => feq t v = false) col -> index_where data col v = [].
Proof.
  intros H. unfold index_where. rewrite filter_none; [reflexivity|].
  intros [r t] Hp. cbn [snd]. rewrite Forall_forall in H. apply H.
  eapply in_combine_r; eauto.
Qed.

Lemma nanprod_of_zeros (xs : list float64) :
  Forall (fun x => x = NaN \/ x = Fin 0) xs -> nanprod (one_plus xs) = Fin 1.
Proof.
  intros H. unfold nanprod.
  assert (G : forall acc, acc = 1 ->
            fold_left fmul (dropna_values (one_plus xs)) (Fin acc) = Fin 1).
  { induction H as [|x l Hx _ IH]; intros acc ->; [reflexivity|].
    destruct Hx as [-> | ->]; cbn [one_plus map dropna_values filter fadd isna negb fold_left fmul].
    - apply (IH 1). reflexivity.
    - apply (IH (1 * (1 + 0))). ring. }
  apply (G 1). reflexivity.
Qed.

(** When the position column holds nothing but [NaN] and 0: no entry, no
    exit, an empty trade table and a total return of 0. *)
Lemma never_invested (data : list row) (short long : Z) :
  Forall (fun p => p = NaN \/ p = Fin 0) (Position (columns data short long)) ->
  entries data (Position (columns data short long)) = [] /\
  exits data (Position (columns data short long)) = [] /\
  extract_trades data (Position (columns data short long)) = Ok [] /\
  Forall (fun x => x = NaN \/ x = Fin 0) (Strategy_Return (columns data short long)) /\
  total_return_of data (short, long) = Fin 0.
Proof.
  intros H. rewrite Forall_forall in H.
  assert (Hdiff : forall v, v = Fin 1 \/ v = Fin (- (1)) ->
            Forall (fun t => feq t v = false)
                   (Trade (Position (columns data short long)))).
  { intros v Hv. rewrite Forall_forall. intros t Ht.
    apply diff_elements in Ht as [->|(x & y & Hx & Hy & ->)]; [reflexivity|].
    destruct (H x Hx) as [-> | ->], (H y Hy) as [-> | ->], Hv as [-> | ->];
      reflexivity. }
  assert (Hen : entries data (Position (columns data short long)) = [])
    by (apply index_where_none, Hdiff; auto).
  assert (Hex : exits data (Position (columns data short long)) = [])
    by (apply index_where_none, Hdiff; auto).
  assert (Hsr : Forall (fun x => x = NaN \/ x = Fin 0)
                       (Strategy_Return (columns data short long))).
  { rewrite Forall_forall. intros t Ht. unfold columns in Ht. cbn [Strategy_Return] in Ht.
    apply col_mul_elements in Ht as (x & y & Hy & ->).
    destruct (H y) as [-> | ->].
    - exact Hy.
    - left. destruct x; reflexivity.
    - apply fmul_zero_r. }
  split; [exact Hen|]. split; [exact Hex|]. split.
  - unfold extract_trades, padded_exits. rewrite Hen, Hex. reflexivity.
  - split; [exact Hsr|]. unfold total_return_of. cbn [fst snd].
    rewrite nanprod_of_zeros by exact Hsr. cbn. f_equal; ring.
Qed.

Lemma zero_signal_position (signal : list Z) :
  Forall (fun z => z = 0%Z) signal ->
  Forall (fun p => p = NaN \/ p = Fin 0) (shift1 signal).
Proof.
  intros H. rewrite Forall_forall in *. intros p Hp.
  apply shift1_elements in Hp as [->|(z & Hz & ->)]; [now left|].
  right. now rewrite (H z Hz).
Qed.

Lemma np_where_gt_same (xs : list Qc) :
  Forall (fun z => z = 0%Z) (np_where_gt xs xs).
Proof.
  unfold np_where_gt. rewrite Forall_map.
  induction xs as [|x xs IH]; cbn [combine]; constructor; [|exact IH].
  cbn [fst snd]. now rewrite Qcgtb_irrefl.
Qed.

(** With no position and no zero close the portfolio stays at the cash. *)
Lemma portfolio_stays_at_cash (data : list row) (short long : Z) (cash : Qc) :
  Forall (fun z => z = 0%Z) (Signal (columns data short long)) ->
  Forall (fun r => Close r <> 0) data ->
  forall i, (1 <= i < length data)%nat ->
    nth_error (Portfolio_Value (columns data short long) cash) i = Some (Fin cash).
Proof.
  intros Hz Hnz.
  destruct (portfolio_value_steps data short long cash Hnz) as [H1 Hstep].
  intros i. induction i as [|[|k] IH]; intros Hi; [lia|apply H1; lia|].
  destruct (Hstep k ltac:(lia)) as (v & c & c' & Hv & _ & _ & [[_ E]|[E _]]).
  - rewrite E, <- Hv. apply IH. lia.
  - exfalso. rewrite Forall_forall in Hz.
    apply nth_error_In in E. apply Hz in E. discriminate.
Qed.

(** X5. With the two windows equal, a successful run never takes a
    position: the signal is 0 on every bar, there is no entry and no exit,
    the trade table is empty, and, when no close is 0, the portfolio value
    is the initial cash on every row from row 1 on. *)
Theorem equal_windows_never_invest
    (sqrt : Qc -> Qc) (data : list row) (window : Z) (cash : Qc) (r : main_result) :
  main_ema_crossover_backtest sqrt data window window cash = Ok r ->
  Forall (fun z => z = 0%Z) (Signal (main_data r)) /\
  entries data (Position (main_data r)) = [] /\
  exits data (Position (main_data r)) = [] /\
  main_trades r = [] /\
  main_win_rate r = Fin 0 /\ main_avg_trade r = Fin 0 /\
  (Forall (fun r => Close r <> 0) data ->
   forall i, (1 <= i < length data)%nat ->
     nth_error (main_portfolio_value r) i = Some (Fin cash)).
Proof.
  intros Hr.
  destruct (main_backtest_fields _ _ _ _ _ _ Hr)
    as (pv & bh & Hd & Hpv & _ & Ht & Hw & Ha & _).
  rewrite Hd, Hpv.
  assert (Hz : Forall (fun z => z = 0%Z) (Signal (columns data window window)))
    by apply np_where_gt_same.
  destruct (never_invested data window window) as (Hen & Hex & Htr & _).
  { apply zero_signal_position, Hz. }
  rewrite Htr in Ht. injection Ht as Ht.
  split; [exact Hz|]. split; [exact Hen|]. split; [exact Hex|].
  split; [now symmetry|]. rewrite Hw, Ha, <- Ht.
  split; [reflexivity|]. split; [reflexivity|].
  intros Hnz. apply portfolio_stays_at_cash; assumption.
Qed.

Lemma equal_windows_never_invest_witness :
  exists r,
    main_ema_crossover_backtest sqrt_up four_bars 20 20 (of_Z 10000) = Ok r /\
    Forall (fun z => z = 0%Z) (Signal (main_data r)) /\
    entries four_bars (Position (main_data r)) = [] /\
    exits four_bars (Position (main_data r)) = [] /\
    main_trades r = [] /\
    main_win_rate r = Fin 0 /\ main_avg_trade r = Fin 0 /\
    (Forall (fun r => Close r <> 0) four_bars ->
     forall i, (1 <= i < length four_bars)%nat ->
       nth_error (main_portfolio_value r) i = Some (Fin (of_Z 10000))).
Proof.
  destruct (main_backtest_ok sqrt_up four_bars 20 20 (of_Z 10000))
    as (r & Hr & _); [lia|lia|discriminate|exact four_bars_dates|].
  exists r. split; [exact Hr|].
  exact (equal_windows_never_invest sqrt_up four_bars 20 (of_Z 10000) r Hr).
Defined.

(** ** Flat prices *)

Lemma ewm_loop_constant (alpha c : Qc) (vals : list Qc) :
  Forall (fun x => x = c) vals -> ewm_loop alpha c vals = vals.
Proof.
  induction 1 as [|x l Hx _ IH]; [reflexivity|]. subst x. cbn.
  replace ((1 - alpha) * c + alpha * c) with c by ring. now rewrite IH.
Qed.

Lemma ewm_run_constant (alpha c : Qc) (vals : list Qc) :
  Forall (fun x => x = c) vals -> ewm_run alpha vals = vals.
Proof.
  intros H. destruct vals as [|x l]; [reflexivity|].
  inversion H as [|? ? Hx Hl]; subst. cbn. now rewrite ewm_loop_constant.
Qed.

Lemma flat_closes (data : list row) (c : Qc) :
  Forall (fun r => Close r = c) data -> Forall (fun x => x = c) (closes data).
Proof. intros H. unfold closes. now rewrite Forall_map. Qed.

Lemma flat_signal (data : list row) (short long : Z) (c : Qc) :
  Forall (fun r => Close r = c) data ->
  EMA_short (columns data short long) = closes data /\
  EMA_long (columns data short long) = closes data /\
  Forall (fun z => z = 0%Z) (Signal (columns data short long)).
Proof.
  intros H. apply flat_closes in H. unfold columns. cbn [EMA_short EMA_long Signal].
  rewrite !(ewm_run_constant _ c) by exact H.
  repeat split. apply np_where_gt_same.
Qed.

(** X6. When all the closes are the same, a successful run has both EMA
    columns equal to the close column, a signal of 0 on every bar and an
    empty trade table; when that close is not 0, the portfolio value is the
    initial cash from row 1 on and, with at least two bars and a cash that
    is not 0, the total return is 0. *)
Theorem flat_prices_never_invest
    (sqrt : Qc -> Qc) (data : list row) (short long : Z) (cash c : Qc)
    (r : main_result) :
  main_ema_crossover_backtest sqrt data short long cash = Ok r ->
  Forall (fun r => Close r = c) data ->
  EMA_short (main_data r) = closes data /\
  EMA_long (main_data r) = closes data /\
  Forall (fun z => z = 0%Z) (Signal (main_data r)) /\
  main_trades r = [] /\
  (c <> 0 ->
   (forall i, (1 <= i < length data)%nat ->
      nth_error (main_portfolio_value r) i = Some (Fin cash)) /\
   ((2 <= length data)%nat -> cash <> 0 -> main_total_return r = Fin 0)).
Proof.
  intros Hr Hflat.
  destruct (main_backtest_fields _ _ _ _ _ _ Hr)
    as (pv & bh & Hd & Hpv & _ & Ht & _ & _ & Hlast & _ & Htr & _).
  rewrite Hd, Hpv, Htr.
  destruct (flat_signal data short long c Hflat) as (Hs & Hl & Hz).
  destruct (never_invested data short long) as (_ & _ & Htrades & _).
  { apply zero_signal_position, Hz. }
  rewrite Htrades in Ht. injection Ht as Ht.
  split; [exact Hs|]. split; [exact Hl|]. split; [exact Hz|].
  split; [now symmetry|]. intros Hc.
  assert (Hnz : Forall (fun r => Close r <> 0) data).
  { revert Hflat. apply Forall_impl. intros a ->. exact Hc. }
  pose proof (portfolio_stays_at_cash data short long cash Hz Hnz) as Hstay.
  split; [exact Hstay|]. intros Hn Hcash.
  apply iloc_last_nth in Hlast.
  rewrite portfolio_value_length, strategy_return_length in Hlast.
  rewrite Hstay in Hlast by lia. injection Hlast as <-.
  unfold percent_gain. rewrite fdiv_fin by exact Hcash. cbn. f_equal.
  field. exact Hcash.
Qed.

Lemma flat_prices_never_invest_witness :
  exists r,
    main_ema_crossover_backtest sqrt_up flat_bars 12 26 (of_Z 10000) = Ok r /\
    EMA_short (main_data r) = closes flat_bars /\
    EMA_long (main_data r) = closes flat_bars /\
    Forall (fun z => z = 0%Z) (Signal (main_data r)) /\
    main_trades r = [] /\
    (of_Z 10 <> 0 ->
     (forall i, (1 <= i < length flat_bars)%nat ->
        nth_error (main_portfolio_value r) i = Some (Fin (of_Z 10000))) /\
     ((2 <= length flat_bars)%nat -> of_Z 10000 <> 0 -> main_total_return r = Fin 0)).
Proof.
  destruct (main_backtest_ok sqrt_up flat_bars 12 26 (of_Z 10000))
    as (r & Hr & _); [lia|lia|discriminate| |].
  { unfold flat_bars, daily_bars, index. cbn.
    repeat constructor; cbn; intuition discriminate. }
  exists r. split; [exact Hr|].
  apply (flat_prices_never_invest sqrt_up flat_bars 12 26 (of_Z 10000) (of_Z 10) r Hr).
  unfold flat_bars, daily_bars. cbn. repeat constructor.
Defined.

(** ** The optimizer on tables it cannot tell apart *)

Lemma keep_greater_all_equal {A} (value : A -> float64) (v : float64)
    (c : A) (rest : list A) (b0 : float64) (p0 : A) :
  (forall q, In q (c :: rest) -> value q = v) ->
  fgt v b0 = true ->
  fold_left (keep_greater value) (c :: rest) (b0, p0) = (v, c).
Proof.
  intros Hall Hgt. cbn [fold_left]. unfold keep_greater at 2. cbn [fst].
  rewrite (Hall c) by now left. rewrite Hgt.
  assert (Hrest : forall q, In q rest -> value q = v)
    by (intros q Hq; apply Hall; now right).
  clear Hall. induction rest as [|q rest IH]; [reflexivity|].
  cbn [fold_left]. unfold keep_greater at 2. cbn [fst].
  rewrite (Hrest q) by now left. rewrite fgt_irrefl.
  apply IH. intros q' Hq'. apply Hrest. now right.
Qed.

Lemma optimize_ema_all_zero (data : list row) :
  (forall q, In q candidates -> total_return_of data q = Fin 0) ->
  optimize_ema data = Ok (5, 20)%Z.
Proof.
  intros H. rewrite optimize_ema_fold.
  change candidates with ((5, 20)%Z :: tl candidates) in *.
  rewrite (keep_greater_all_equal _ (Fin 0)); [reflexivity|exact H|reflexivity].
Qed.

Lemma short_table_position (data : list row) (short long : Z) :
  (length data <= 2)%nat ->
  Forall (fun p => p = NaN \/ p = Fin 0) (Position (columns data short long)).
Proof.
  intros Hn. unfold columns. cbn [Position].
  pose proof (signal_length data (alpha_of short) (alpha_of long)) as Hlen.
  pose proof (signal_head (closes data) (alpha_of short) (alpha_of long)) as Hhd.
  destruct (np_where_gt _ _) as [|z0 [|z1 [|z2 l]]]; cbn in Hlen.
  - constructor.
  - cbn. constructor; [now left|constructor].
  - assert (Hz : Some z0 = Some 0%Z).
    { apply Hhd. destruct data; [discriminate|]. discriminate. }
    injection Hz as ->. cbn.
    constructor; [now left|]. constructor; [now right|constructor].
  - lia.
Qed.

(** X7. On a table of at most two rows, and on a table whose closes are all
    the same, every candidate's total return is 0 and the optimizer returns
    the first pair, (5, 20). *)
Theorem optimizer_defaults_to_first_pair (data : list row) :
  (length data <= 2)%nat \/ (exists c, Forall (fun r => Close r = c) data) ->
  (forall q, In q candidates -> total_return_of data q = Fin 0) /\
  optimize_ema data = Ok (5, 20)%Z.
Proof.
  intros H.
  assert (Hall : forall q, In q candidates -> total_return_of data q = Fin 0).
  { intros [s l] _.
    destruct (never_invested data s l) as (_ & _ & _ & _ & E); [|exact E].
    destruct H as [Hn|[c Hc]].
    - apply short_table_position, Hn.
    - apply zero_signal_position. apply (flat_signal data s l c Hc). }
  split; [exact Hall|]. apply optimize_ema_all_zero, Hall.
Qed.

Lemma optimizer_defaults_to_first_pair_witness :
  (forall q, In q candidates -> total_return_of flat_bars q = Fin 0) /\
  optimize_ema flat_bars = Ok (5, 20)%Z.
Proof.
  apply (optimizer_defaults_to_first_pair flat_bars).
  right. exists (of_Z 10). unfold flat_bars, daily_bars. cbn. repeat constructor.
Defined.

(** ** The script of [main.py] *)

Lemma optimize_ema_in_grid (data : list row) :
  Forall (fun r => Close r <> 0) data ->
  exists p, optimize_ema data = Ok p /\ In p candidates.
Proof.
  intros Hnz. rewrite optimize_ema_fold.
  pose proof (keep_greater_first_maximum (total_return_of data) candidates
                (Inf true) (0%Z, 0%Z)) as H.
  cbv zeta in H.
  remember (fold_left (keep_greater (total_return_of data)) candidates
              (Inf true, (0%Z, 0%Z))) as b eqn:Eb.
  clear Eb. exists (snd b). split; [reflexivity|].
  destruct H as [[_ Hall]|(pre & post & Hc & _)].
  - exfalso. destruct (total_return_finite data (5, 20)%Z Hnz) as [v Hv].
    specialize (Hall (5, 20)%Z (or_introl eq_refl)).
    rewrite Hv in Hall. discriminate.
  - rewrite Hc. apply in_or_app. right. now left.
Qed.



(** ** The sidebar of [app.py] *)

(** X9. Whatever the sliders and the cash input are set to, the run
    started from the sidebar raises nothing but [IndexError], and that only
    on an empty table: on any other table it returns its metrics, also with
    the short window above the long one, which the sliders allow. *)
Theorem sidebar_run_fails_only_without_data
    (sqrt : Qc -> Qc) (data : list row) (sb : sidebar) :
  sidebar_in_range sb ->
  (data = [] -> run_backtest sqrt data sb = Err IndexError) /\
  (data <> [] ->
   exists r, run_backtest sqrt data sb = Ok r /\
             app_data r = columns data (short_window sb) (long_window sb)) /\
  (exists sb', sidebar_in_range sb' /\ (long_window sb' < short_window sb')%Z).
Proof.
  intros (Hs & Hl & _). unfold run_backtest. split; [|split].
  - intros ->. apply backtest_empty; lia.
  - intros Hne.
    destruct (app_backtest_ok sqrt data (short_window sb) (long_window sb)
                (of_Z (initial_cash sb))) as (r & Hr & Hd & _); [lia|lia|exact Hne|].
    eauto.
  - exists {| short_window := 50; long_window := 20; initial_cash := 1000 |}.
    unfold sidebar_in_range. cbn. lia.
Qed.

Lemma sidebar_run_fails_only_without_data_witness :
  (four_bars = [] ->
   run_backtest sqrt_up four_bars
     {| short_window := 50; long_window := 20; initial_cash := 10000 |}
   = Err IndexError) /\
  (four_bars <> [] ->
   exists r,
     run_backtest sqrt_up four_bars
       {| short_window := 50; long_window := 20; initial_cash := 10000 |} = Ok r /\
     app_data r = columns four_bars 50 20) /\
  (exists sb', sidebar_in_range sb' /\ (long_window sb' < short_window sb')%Z).
Proof.
  apply (sidebar_run_fails_only_without_data sqrt_up four_bars
           {| short_window := 50; long_window := 20; initial_cash := 10000 |}).
  unfold sidebar_in_range. cbn. lia.
Defined.

(** ** The trade figures *)

Lemma Qcgtb_false (x y : Qc) : Qcgtb x y = false <-> x <= y.
Proof.
  split; intros H.
  - destruct (Qclt_le_dec y x) as [Hlt|Hle]; [|exact Hle].
    apply Qcgtb_true in Hlt. congruence.
  - destruct (Qcgtb x y) eqn:E; [|reflexivity].
    apply Qcgtb_true in E. exfalso. revert E. apply Qcle_not_lt, H.
Qed.

(** A trade bought above 0 has a positive return exactly when it is sold
    higher than it was bought. *)
Lemma trade_wins (p q : Qc) :
  0 < p -> fgt (trade_return_pct p q) (Fin 0) = Qcgtb q p.
Proof.
  intros Hp.
  assert (Hp0 : p <> 0).
  { intros E. rewrite E in Hp. revert Hp. apply Qcle_not_lt, Qcle_refl. }
  unfold trade_return_pct. rewrite fdiv_fin by exact Hp0.
  cbn [fsub fneg fadd fmul]. rewrite fgt_fin.
  assert (Hiff : 0 < (q / p + - (1)) * of_Z 100 <-> p < q).
  { unfold Qclt. rewrite this_mult, this_plus, this_opp, this_div, this_of_Z.
    change (this 0) with 0%Q. change (this 1) with 1%Q.
    change (inject_Z 100) with 100%Q.
    assert (Hq : (this q / this p * this p == this q)%Q).
    { rewrite Qmult_comm. apply Qmult_div_r.
      intros E. apply Hp0. apply Qc_is_canon. exact E. }
    unfold Qclt in Hp. change (this 0) with 0%Q in Hp.
    generalize dependent (this q / this p)%Q. intros x Hq.
    generalize dependent (this p). generalize dependent (this q). intros.
    split; intros H; nra. }
  destruct (Qcgtb q p) eqn:E.
  - apply Qcgtb_true. apply Hiff. apply Qcgtb_true. exact E.
  - apply Qcgtb_false. apply Qcgtb_false in E.
    destruct (Qclt_le_dec 0 ((q / p + - (1)) * of_Z 100)) as [Hlt|Hle]; [|exact Hle].
    apply Hiff in Hlt. exfalso. revert Hlt. apply Qcle_not_lt, E.
Qed.

Lemma close_on_in (data : list row) (d : Z) (p : Qc) :
  close_on data d = Some p -> exists r, In r data /\ Close r = p.
Proof.
  unfold close_on. destruct (find _ data) as [r|] eqn:E; [|discriminate].
  intros [= <-]. apply find_some in E as [Hin _]. eauto.
Qed.

(** The rows of the trade table that the backtest builds. *)
Lemma derived_trades_rows (data : list row) (short long : Z) (trades : list trade) :
  NoDup (index data) ->
  extract_trades data (Position (columns data short long)) = Ok trades ->
  Forall (fun t => Return_pct t = trade_return_pct (Entry_Price t) (Exit_Price t) /\
                   close_on data (Entry t) = Some (Entry_Price t) /\
                   close_on data (Exit t) = Some (Exit_Price t)) trades.
Proof.
  intros Hnd Ht. unfold columns in Ht. cbn [Position] in Ht.
  destruct (extract_trades_built data _ Hnd
              (derived_position_alternates data (alpha_of short) (alpha_of long)))
    as (ex' & enp & exp & Hres & Hlen & L1 & L2 & F1 & F2 & _).
  rewrite Hres in Ht. injection Ht as <-.
  set (en := entries data _) in *.
  destruct (zip_trades_columns en ex' enp exp Hlen L1 L2)
    as (_ & ZA & ZB & ZC & ZD & ZR).
  assert (Hp : Forall (fun t => close_on data (Entry t) = Some (Entry_Price t) /\
                                close_on data (Exit t) = Some (Exit_Price t))
                      (zip_trades en ex' enp exp)).
  { apply trades_prices; [rewrite ZA, ZC|rewrite ZB, ZD]; assumption. }
  rewrite Forall_forall in *. intros t Hin.
  split; [apply ZR, Hin|apply Hp, Hin].
Qed.

Lemma win_share_bounds (w n : nat) :
  (w <= n)%nat -> (0 < n)%nat ->
  0 <= of_Z (Z.of_nat w) / of_Z (Z.of_nat n) * of_Z 100 /\
  of_Z (Z.of_nat w) / of_Z (Z.of_nat n) * of_Z 100 <= of_Z 100.
Proof.
  intros Hw Hn. unfold Qcle.
  rewrite this_mult, this_div, !this_of_Z. change (this 0) with 0%Q.
  change (inject_Z 100) with 100%Q.
  assert (Hn' : (0 < inject_Z (Z.of_nat n))%Q).
  { change 0%Q with (inject_Z 0). rewrite <- Zlt_Qlt. lia. }
  assert (H0 : (0 <= inject_Z (Z.of_nat w) / inject_Z (Z.of_nat n))%Q).
  { apply Qle_shift_div_l; [exact Hn'|]. rewrite Qmult_0_l.
    change 0%Q with (inject_Z 0). rewrite <- Zle_Qle. lia. }
  assert (H1 : (inject_Z (Z.of_nat w) / inject_Z (Z.of_nat n) <= 1)%Q).
  { apply Qle_shift_div_r; [exact Hn'|]. rewrite Qmult_1_l.
    rewrite <- Zle_Qle. lia. }
  generalize dependent (inject_Z (Z.of_nat w) / inject_Z (Z.of_nat n))%Q.
  intros x H0 H1. split; lra.
Qed.

(** X10. In a successful run of [main.py]'s backtest over distinct dates and
    positive closes: without trades the win rate and the average trade are
    0; otherwise the win rate is 100 times the share of the trades whose
    exit price is above their entry price; it always lies between 0 and
    100. *)
Theorem win_rate_is_share_of_rising_trades
    (sqrt : Qc -> Qc) (data : list row) (short long : Z) (cash : Qc) (r : main_result) :
  main_ema_crossover_backtest sqrt data short long cash = Ok r ->
  NoDup (index data) ->
  Forall (fun r => 0 < Close r) data ->
  (main_trades r = [] -> main_win_rate r = Fin 0 /\ main_avg_trade r = Fin 0) /\
  (main_trades r <> [] ->
   main_win_rate r
   = Fin (of_Z (Z.of_nat (length (filter (fun t => Qcgtb (Exit_Price t) (Entry_Price t))
                                         (main_trades r))))
          / of_Z (Z.of_nat (length (main_trades r))) * of_Z 100)) /\
  (exists v, main_win_rate r = Fin v /\ 0 <= v /\ v <= of_Z 100).
Proof.
  intros Hr Hnd Hpos.
  destruct (main_backtest_fields _ _ _ _ _ _ Hr)
    as (pv & bh & _ & _ & _ & Ht & -> & -> & _).
  pose proof (derived_trades_rows data short long _ Hnd Ht) as Hrows.
  assert (Hfilter : filter (fun t => fgt (Return_pct t) (Fin 0)) (main_trades r)
                    = filter (fun t => Qcgtb (Exit_Price t) (Entry_Price t))
                             (main_trades r)).
  { apply filter_ext_in. intros t Hin. rewrite Forall_forall in Hrows.
    destruct (Hrows t Hin) as (-> & Hen & _).
    apply trade_wins. apply close_on_in in Hen as (row & Hrow & <-).
    rewrite Forall_forall in Hpos. apply Hpos, Hrow. }
  assert (Hrate : main_trades r <> [] ->
            win_rate (main_trades r)
            = Fin (of_Z (Z.of_nat (length (filter (fun t => Qcgtb (Exit_Price t) (Entry_Price t))
                                                  (main_trades r))))
                   / of_Z (Z.of_nat (length (main_trades r))) * of_Z 100)).
  { intros Hne. unfold win_rate. destruct (main_trades r) as [|t ts] eqn:E; [congruence|].
    rewrite Hfilter. reflexivity. }
  split; [|split].
  - intros ->. split; reflexivity.
  - exact Hrate.
  - destruct (main_trades r) as [|t ts] eqn:E.
    + exists 0. split; [reflexivity|]. split; [apply Qcle_refl|].
      apply Qclt_le_weak, of_Z_pos. lia.
    + eexists. split; [apply Hrate; discriminate|].
      apply win_share_bounds; [apply filter_length_le|cbn; lia].
Qed.

Lemma win_rate_is_share_of_rising_trades_witness :
  exists r,
    main_ema_crossover_backtest sqrt_up ten_bars 2 4 (of_Z 10000) = Ok r /\
    (main_trades r = [] -> main_win_rate r = Fin 0 /\ main_avg_trade r = Fin 0) /\
    (main_trades r <> [] ->
     main_win_rate r
     = Fin (of_Z (Z.of_nat (length (filter (fun t => Qcgtb (Exit_Price t) (Entry_Price t))
                                           (main_trades r))))
            / of_Z (Z.of_nat (length (main_trades r))) * of_Z 100)) /\
    (exists v, main_win_rate r = Fin v /\ 0 <= v /\ v <= of_Z 100).
Proof.
  assert (Hnd : NoDup (index ten_bars)).
  { unfold ten_bars, daily_bars, index. cbn.
    repeat constructor; cbn; intuition discriminate. }
  destruct (main_backtest_ok sqrt_up ten_bars 2 4 (of_Z 10000))
    as (r & Hr & _); [lia|lia|discriminate|exact Hnd|].
  exists r. split; [exact Hr|].
  apply (win_rate_is_share_of_rising_trades sqrt_up ten_bars 2 4 (of_Z 10000) r Hr Hnd).
  unfold ten_bars, daily_bars. cbn. repeat constructor.
Defined.

(** ** Trades in time *)

Lemma index_where_cons (r : row) (rows : list row) (t : float64)
    (col : list float64) (v : float64) :
  index_where (r :: rows) (t :: col) v
  = if feq t v then Date r :: index_where rows col v else index_where rows col v.
Proof. unfold index_where. cbn. destruct (feq t v); reflexivity. Qed.

Lemma index_where_nil_r (rows : list row) (v : float64) :
  index_where rows [] v = [].
Proof. unfold index_where. now rewrite combine_nil. Qed.

(** Along increasing dates the entries and exits of a 0/1 column come in
    turns, so each entry is dated before the exit that answers it. *)
Lemma transitions_ordered (bs : list bool) :
  forall (prev : bool) (rows : list row),
    StronglySorted Z.lt (index rows) ->
    let tr := map (fun p => fsub (snd p) (fst p))
                  (combine (map of_bool (prev :: bs)) (map of_bool bs)) in
    Forall (fun p => (fst p < snd p)%Z)
           (combine (index_where rows tr (Fin 1))
                    (if prev then tl (index_where rows tr (Fin (- (1))))
                     else index_where rows tr (Fin (- (1))))).
Proof.
  induction bs as [|c bs IH]; intros prev rows Hs tr; subst tr.
  - cbn [map combine]. rewrite !index_where_nil_r. constructor.
  - destruct rows as [|r rows].
    { unfold index_where. cbn. constructor. }
    cbn [index map] in Hs. apply StronglySorted_inv in Hs as [Hs Hr].
    specialize (IH c rows Hs). cbv zeta in IH.
    assert (E : map (fun p => fsub (snd p) (fst p))
                    (combine (map of_bool (prev :: c :: bs)) (map of_bool (c :: bs)))
                = fsub (of_bool c) (of_bool prev)
                  :: map (fun p => fsub (snd p) (fst p))
                         (combine (map of_bool (c :: bs)) (map of_bool bs)))
      by reflexivity.
    rewrite E. clear E.
    remember (map (fun p => fsub (snd p) (fst p))
                  (combine (map of_bool (c :: bs)) (map of_bool bs))) as tr eqn:Etr.
    clear Etr.
    rewrite !index_where_cons, entry_transition, exit_transition.
    destruct prev, c; cbn [andb negb tl]; try exact IH.
    destruct (index_where rows tr (Fin (- (1)))) as [|x0 ex1] eqn:Eex.
    + destruct (index_where rows tr (Fin 1)); constructor.
    + cbn [combine]. constructor; [|exact IH]. cbn [fst snd].
      rewrite Forall_forall in Hr. apply Hr.
      apply (index_where_in rows tr (Fin (- (1)))). rewrite Eex. now left.
Qed.

Lemma derived_entries_before_exits (data : list row) (short long : Z) :
  StronglySorted Z.lt (index data) ->
  Forall (fun p => (fst p < snd p)%Z)
         (combine (entries data (Position (columns data short long)))
                  (exits data (Position (columns data short long)))).
Proof.
  intros Hs. unfold columns. cbn [Position]. rewrite np_where_gt_bools.
  assert (Hhd : hd false (map (fun p => Qcgtb (fst p) (snd p))
                              (combine (ewm_run (alpha_of short) (closes data))
                                       (ewm_run (alpha_of long) (closes data)))) = false).
  { destruct (closes data) as [|c rest]; [reflexivity|]. cbn. apply Qcgtb_irrefl. }
  revert Hhd. generalize (map (fun p => Qcgtb (fst p) (snd p))
                              (combine (ewm_run (alpha_of short) (closes data))
                                       (ewm_run (alpha_of long) (closes data)))).
  intros bs Hhd. rewrite shift1_bools. unfold entries, exits, Trade.
  destruct bs as [|b0 [|b1 bs]].
  - cbn [diff]. rewrite !index_where_nil_r. constructor.
  - cbn [removelast map diff combine].
    destruct data as [|r0 data]; [unfold index_where; cbn; constructor|].
    rewrite !index_where_cons. cbn [feq]. rewrite !index_where_nil_r. constructor.
  - cbn in Hhd. subst b0.
    change (removelast (false :: b1 :: bs)) with (false :: removelast (b1 :: bs)).
    set (rl := removelast (b1 :: bs)).
    cbn [map]. rewrite diff_cons2.
    destruct data as [|r0 [|r1 rows]].
    + unfold index_where. cbn. constructor.
    + rewrite !index_where_cons. cbn [feq].
      unfold index_where. cbn. constructor.
    + rewrite !index_where_cons. cbn [feq fsub fneg fadd of_bool].
      cbn [index map] in Hs.
      apply StronglySorted_inv in Hs as [Hs _].
      apply StronglySorted_inv in Hs as [Hs _].
      apply (transitions_ordered rl false rows Hs).
Qed.

Lemma sorted_snoc_max (l : list Z) (x : Z) :
  StronglySorted Z.lt (l ++ [x]) -> Forall (fun y => (y < x)%Z) l.
Proof.
  induction l as [|a l IH]; intros H; [constructor|].
  cbn in H. apply StronglySorted_inv in H as [H Ha].
  constructor; [|apply IH, H].
  rewrite Forall_forall in Ha. apply Ha. apply in_or_app. right. now left.
Qed.

Lemma sorted_last_is_latest (data : list row) (last : row) (d : Z) :
  StronglySorted Z.lt (index data) ->
  iloc_last data = Ok last ->
  In d (index data) -> (d <= Date last)%Z.
Proof.
  intros Hs Hl Hd. apply iloc_last_inv in Hl as [l' ->].
  unfold index in *. rewrite map_app in *. cbn [map] in *.
  apply sorted_snoc_max in Hs. rewrite Forall_forall in Hs.
  apply in_app_or in Hd as [Hd|[<-|[]]]; [apply Z.lt_le_incl, Hs, Hd|lia].
Qed.

Lemma sorted_nodup (l : list Z) : StronglySorted Z.lt l -> NoDup l.
Proof.
  induction l as [|a l IH]; intros H; [constructor|].
  apply StronglySorted_inv in H as [H Ha]. constructor; [|apply IH, H].
  intros Hin. rewrite Forall_forall in Ha. specialize (Ha a Hin). lia.
Qed.

Lemma combine_snoc_in {A B} (l : list A) (l' : list B) (d : B) (p : A * B) :
  In p (combine l (l' ++ [d])) -> In p (combine l l') \/ snd p = d.
Proof.
  revert l'. induction l as [|a l IH]; intros l' H; [contradiction|].
  destruct l' as [|b l'].
  - cbn in H. destruct H as [<-|H]; [now right|]. destruct l; contradiction.
  - cbn in H. destruct H as [<-|H]; [left; now left|].
    destruct (IH l' H) as [H'|H']; [left; now right|now right].
Qed.

Lemma combine_fields (ts : list trade) :
  combine (map Entry ts) (map Exit ts) = map (fun t => (Entry t, Exit t)) ts.
Proof. induction ts as [|t ts IH]; [reflexivity|]. cbn. now rewrite IH. Qed.

(** X11. In a successful run of [main.py]'s backtest over strictly
    increasing dates, every trade exits no earlier than it enters, and
    every trade closed by an exit of the position column exits strictly
    later; only the trade closed on the last row can enter and exit on the
    same day. *)
Theorem trades_exit_after_entry
    (sqrt : Qc -> Qc) (data : list row) (short long : Z) (cash : Qc) (r : main_result) :
  main_ema_crossover_backtest sqrt data short long cash = Ok r ->
  StronglySorted Z.lt (index data) ->
  Forall (fun t => (Entry t <= Exit t)%Z) (main_trades r) /\
  Forall (fun t => (Entry t < Exit t)%Z)
         (firstn (length (exits data (Position (main_data r)))) (main_trades r)).
Proof.
  intros Hr Hs.
  destruct (main_backtest_fields _ _ _ _ _ _ Hr)
    as (pv & bh & Hd & _ & _ & Ht & _).
  rewrite Hd. pose proof (sorted_nodup _ Hs) as Hnd.
  pose proof (derived_entries_before_exits data short long Hs) as Hord.
  assert (Halt : length (exits data (Position (columns data short long)))
                 = length (entries data (Position (columns data short long))) \/
                 S (length (exits data (Position (columns data short long))))
                 = length (entries data (Position (columns data short long))))
    by apply (derived_position_alternates data (alpha_of short) (alpha_of long)).
  destruct (extract_trades_built data (Position (columns data short long)) Hnd Halt)
    as (ex' & enp & exp & Hres & Hlen & L1 & L2 & _ & _ & Hsame & Hopen).
  set (en := entries data (Position (columns data short long))) in *.
  set (ex := exits data (Position (columns data short long))) in *.
  assert (Htr : zip_trades en ex' enp exp = main_trades r) by congruence.
  destruct (zip_trades_columns en ex' enp exp Hlen L1 L2)
    as (_ & ZA & ZB & _).
  rewrite Htr in ZA, ZB.
  assert (Hpairs : map (fun t => (Entry t, Exit t)) (main_trades r) = combine en ex').
  { rewrite <- combine_fields, ZA, ZB. reflexivity. }
  assert (Hfirst : firstn (length ex) ex' = ex).
  { destruct Halt as [Hk|Hk].
    - rewrite (Hsame Hk). apply firstn_all.
    - destruct (Hopen Hk) as (rl & _ & _ & ->).
      rewrite firstn_app, firstn_all, Nat.sub_diag. cbn. apply app_nil_r. }
  split.
  - assert (Hle : Forall (fun p => (fst p <= snd p)%Z) (combine en ex')).
    { rewrite Forall_forall in *. intros p Hp.
      destruct Halt as [Hk|Hk].
      - rewrite (Hsame Hk) in Hp. apply Z.lt_le_incl, Hord, Hp.
      - destruct (Hopen Hk) as (rl & Hrl & _ & E). rewrite E in Hp.
        destruct (combine_snoc_in _ _ _ _ Hp) as [Hp'|Hp'];
          [apply Z.lt_le_incl, Hord, Hp'|].
        rewrite Hp'. apply (sorted_last_is_latest data rl _ Hs Hrl).
        destruct p as [e x]. apply in_combine_l in Hp. cbn [fst].
        apply (index_where_in data (Trade (Position (columns data short long))) (Fin 1)).
        exact Hp. }
    rewrite <- Hpairs, Forall_map in Hle. exact Hle.
  - assert (Hlt : Forall (fun p => (fst p < snd p)%Z)
                         (map (fun t => (Entry t, Exit t))
                              (firstn (length ex) (main_trades r)))).
    { rewrite <- firstn_map, Hpairs, combine_firstn, Hfirst, <- combine_firstn_r.
      exact Hord. }
    rewrite Forall_map in Hlt. exact Hlt.
Qed.

Lemma trades_exit_after_entry_witness :
  exists r,
    main_ema_crossover_backtest sqrt_up ten_bars 2 4 (of_Z 10000) = Ok r /\
    Forall (fun t => (Entry t <= Exit t)%Z) (main_trades r) /\
    Forall (fun t => (Entry t < Exit t)%Z)
           (firstn (length (exits ten_bars (Position (main_data r)))) (main_trades r)).
Proof.
  assert (Hs : StronglySorted Z.lt (index ten_bars)).
  { unfold ten_bars, daily_bars, index. cbn.
    repeat (constructor; [|repeat (constructor; [reflexivity|]); constructor]).
    constructor. }
  destruct (main_backtest_ok sqrt_up ten_bars 2 4 (of_Z 10000))
    as (r & Hr & _); [lia|lia|discriminate|apply sorted_nodup, Hs|].
  exists r. split; [exact Hr|].
  exact (trades_exit_after_entry sqrt_up ten_bars 2 4 (of_Z 10000) r Hr Hs).
Defined.

(** ** A single bar *)


